(** * py3status, module [mpd_status]: template engine and song attributes

    A shallow embedding of [src/py3status/modules/mpd_status.py]:
    - [parse_template], the MPC-like template parser (lines 58-113);
    - [song_attr], the per-field formatter of a song record (lines 116-139);
    - the length cap applied by [Py3status.current_track] (lines 218-219).

    Python [str] values are [string]; the character iterator shared by all
    the nested calls of [parse_template] is the [string] of the characters
    not consumed yet, passed to and returned by every call; a song (a Python
    [dict]) is a [gmap string string]. *)

From Stdlib Require Import ZArith Lia Bool List Ascii String.
From stdpp Require Import gmap strings.

Import ListNotations.
Local Open Scope string_scope.

(** ** The template parser *)

Module Template.

(** [''.join(ret)] on a list of strings. *)
Definition join (ret : list string) : string :=
  fold_right String.append "" ret.

(** [''.join(itertools.takewhile(lambda e: e != endchar, instr))]: the
    characters before the first [endchar] become the key; the iterator is
    left after that [endchar], which is consumed without being part of the
    key, or exhausted when there is none. *)
Fixpoint takewhile_ne (endchar : ascii) (instr : string) : string * string :=
  match instr with
  | EmptyString => ("", "")
  | String e instr' =>
      if Ascii.eqb e endchar then ("", instr')
      else let '(key, rest) := takewhile_ne endchar instr' in
           (String e key, rest)
  end.

(** [next(instr, default)]. *)
Definition next (instr : string) (default : ascii) : ascii * string :=
  match instr with
  | EmptyString => (default, "")
  | String c instr' => (c, instr')
  end.

(** [ln in 'abtnvfr'] followed by [ast.literal_eval('"\\{}"'.format(ln))]:
    the control character an escape letter stands for, if it is one. *)
Definition escape_char (ln : ascii) : option ascii :=
  if Ascii.eqb ln "a" then Some "007"%char
  else if Ascii.eqb ln "b" then Some "008"%char
  else if Ascii.eqb ln "t" then Some "009"%char
  else if Ascii.eqb ln "n" then Some "010"%char
  else if Ascii.eqb ln "v" then Some "011"%char
  else if Ascii.eqb ln "f" then Some "012"%char
  else if Ascii.eqb ln "r" then Some "013"%char
  else None.

(** Truthiness of a Python string: [if value:]. *)
Definition truthy (value : string) : bool :=
  match value with EmptyString => false | String _ _ => true end.

(** The characters the loop has a branch for; every other character is
    copied by the final [else]. *)
Definition special (char : ascii) : bool :=
  Ascii.eqb char "%" || Ascii.eqb char "{" || Ascii.eqb char "#"
  || Ascii.eqb char "\" || Ascii.eqb char "[" || Ascii.eqb char "]"
  || Ascii.eqb char "|" || Ascii.eqb char "&".

(** A template made of copied characters only. *)
Fixpoint literal (template : string) : bool :=
  match template with
  | EmptyString => true
  | String char template => negb (special char) && literal template
  end.

(** [c in s] for a character [c]. *)
Fixpoint occurs (c : ascii) (s : string) : bool :=
  match s with
  | EmptyString => false
  | String e s => Ascii.eqb e c || occurs c s
  end.

(** What one invocation hands back: the pair [(text, found)] it returns,
    the iterator as it leaves it, and the keys given to [value_getter] so
    far, oldest first. *)
Record outcome := Outcome {
  text : string;
  found : bool;
  rest : string;
  calls : list string
}.

Section Parser.

Variable value_getter : string -> string.

(** The [for char in instr] loop of [parse_template], with its local state
    [ret] and [found]; [calls] is the log of the keys looked up. A nested
    [parse_template(instr, value_getter, found)] is the same loop started
    with an empty [ret] on the shared iterator. [fuel] bounds the number of
    loop iterations and nested calls; [None] means it ran out. *)
Fixpoint scope (fuel : nat) (instr : string) (ret : list string)
    (found : bool) (calls : list string) : option outcome :=
  match fuel with
  | O => None
  | S fuel =>
    match instr with
    | EmptyString => Some (Outcome (join ret) found "" calls)
    | String char instr =>
      if Ascii.eqb char "%" || Ascii.eqb char "{" then
        let endchar := if Ascii.eqb char "%" then "%"%char else "}"%char in
        let '(key, instr) := takewhile_ne endchar instr in
        let value := value_getter key in
        if truthy value
        then scope fuel instr (ret ++ [value]) true (calls ++ [key])
        else scope fuel instr ret false (calls ++ [key])
      else if Ascii.eqb char "#" then
        let '(c, instr) := next instr "#" in
        scope fuel instr (ret ++ [String c ""]) found calls
      else if Ascii.eqb char "\" then
        let '(ln, instr) := next instr "\" in
        match escape_char ln with
        | Some c => scope fuel instr (ret ++ [String c ""]) found calls
        | None => scope fuel instr (ret ++ [String ln ""]) found calls
        end
      else if Ascii.eqb char "[" then
        match scope fuel instr [] found calls with
        | None => None
        | Some sub =>
            scope fuel (rest sub) (ret ++ [text sub]) (Template.found sub)
                  (Template.calls sub)
        end
      else if Ascii.eqb char "]" then
        if found then Some (Outcome (join ret) true instr calls)
        else Some (Outcome "" false instr calls)
      else if Ascii.eqb char "|" then
        match scope fuel instr [] found calls with
        | None => None
        | Some sub =>
            if found then
              scope fuel (rest sub) ret found (Template.calls sub)
            else if Template.found sub then
              scope fuel (rest sub) (ret ++ [text sub]) true
                    (Template.calls sub)
            else Some (Outcome "" false (rest sub) (Template.calls sub))
        end
      else if Ascii.eqb char "&" then
        match scope fuel instr [] found calls with
        | None => None
        | Some sub =>
            if found && Template.found sub then
              scope fuel (rest sub) (ret ++ [text sub]) found
                    (Template.calls sub)
            else Some (Outcome "" false (rest sub) (Template.calls sub))
        end
      else scope fuel instr (ret ++ [String char ""]) found calls
    end
  end.

(** One more unit of fuel than there are characters left is enough (see
    [scope_enough_fuel]), so the loop is run with exactly that. *)
Definition run (instr : string) (ret : list string) (found : bool)
    (calls : list string) : outcome :=
  match scope (S (String.length instr)) instr ret found calls with
  | Some o => o
  | None => Outcome "" false "" calls
  end.

(** [parse_template(instr, value_getter, found)] entered on an iterator. *)
Definition parse_template (instr : string) (found : bool)
    (calls : list string) : outcome :=
  run instr [] found calls.

(** [text, _ = parse_template(self.format, attr_getter)] together with the
    flag: the call on a whole template, [found] at its default [True]. *)
Definition render (template : string) : string * bool :=
  let o := parse_template template true [] in (text o, found o).

End Parser.

Arguments run : simpl never.

(** [after] is what an iterator over [instr] can still yield once some of
    its characters have been consumed. *)
Definition remains (instr after : string) : Prop :=
  exists consumed, instr = consumed ++ after.

(** What every invocation guarantees about its outcome: the iterator was
    only consumed, the call log only grew, and a scope that returns before
    the end of the input with [found] false hands back no text. *)
Definition sound (instr : string) (calls : list string) (o : outcome)
    : Prop :=
  remains instr (rest o)
  /\ (exists more, Template.calls o = (calls ++ more)%list)
  /\ (found o = false -> rest o <> "" -> text o = "").

End Template.

(** ** Song attributes *)

Module Song.

(** The two exceptions [song_attr] can meet: a missing [dict] key and a
    value that does not parse. *)
Inductive exn := KeyError | ValueError.

(** A Python computation that returns a value or raises. *)
Inductive result (A : Type) :=
| Return (a : A)
| Raise (e : exn).
Arguments Return {A} a.
Arguments Raise {A} e.

Definition bind {A B : Type} (m : result A) (k : A -> result B) : result B :=
  match m with
  | Return a => k a
  | Raise e => Raise e
  end.

Notation "'let!' x ':=' m 'in' k" := (bind m (fun x => k))
  (at level 10, x name, m at level 100, k at level 200).

(** [try: body except (KeyError, ValueError): handler]: both exceptions of
    [exn] are listed, so whatever [body] raises is caught. *)
Definition try_except {A : Type} (body : result A) (handler : result A)
    : result A :=
  match body with
  | Return a => Return a
  | Raise KeyError | Raise ValueError => handler
  end.

(** [song[key]]. *)
Definition getitem (song : gmap string string) (key : string)
    : result string :=
  match song !! key with
  | Some v => Return v
  | None => Raise KeyError
  end.

(** The characters [int()] strips around a number (code points below 256):
    tab to carriage return, space, NEL and no-break space. *)
Definition is_space (c : ascii) : bool :=
  let n := nat_of_ascii c in
  ((9 <=? n) && (n <=? 13) || (n =? 32) || (n =? 133) || (n =? 160))%nat.

Definition is_digit (c : ascii) : bool :=
  let n := nat_of_ascii c in ((48 <=? n) && (n <=? 57))%nat.

Definition digit_value (c : ascii) : Z := Z.of_nat (nat_of_ascii c) - 48.

Fixpoint lstrip (s : string) : string :=
  match s with
  | EmptyString => ""
  | String c s' => if is_space c then lstrip s' else s
  end.

Fixpoint rstrip (s : string) : string :=
  match s with
  | EmptyString => ""
  | String c s' =>
      match rstrip s' with
      | EmptyString => if is_space c then "" else String c ""
      | r => String c r
      end
  end.

(** The digits of a decimal literal, most significant first; a single
    underscore may sit between two digits. *)
Fixpoint int_digits (s : string) (acc : Z) (after_digit : bool) : option Z :=
  match s with
  | EmptyString => if after_digit then Some acc else None
  | String c s' =>
      if is_digit c then int_digits s' (10 * acc + digit_value c) true
      else if Ascii.eqb c "_" && after_digit then int_digits s' acc false
      else None
  end.

(** The built-in [int(s)] on a string, base ten: [None] stands for the
    [ValueError] it raises. *)
Definition py_int (s : string) : option Z :=
  match rstrip (lstrip s) with
  | String "+" d => int_digits d 0 false
  | String "-" d => option_map Z.opp (int_digits d 0 false)
  | d => int_digits d 0 false
  end.

Definition int (s : string) : result Z :=
  match py_int s with
  | Some z => Return z
  | None => Raise ValueError
  end.

(** Decimal digits of a natural number, built from the least significant
    one; [fuel] bounds the number of digits. *)
Fixpoint digits_of (fuel : nat) (n : N) (acc : string) : string :=
  match fuel with
  | O => acc
  | S fuel =>
      let acc := String (ascii_of_N (48 + n mod 10)) acc in
      if (n <? 10)%N then acc else digits_of fuel (n / 10)%N acc
  end.

(** ['{:d}'.format(z)] and ['{}'.format(z)]. *)
Definition format_d (z : Z) : string :=
  let n := Z.abs_N z in
  let d := digits_of (S (N.to_nat (N.log2 n))) n "" in
  if (z <? 0)%Z then String "-" d else d.

(** ['{:02d}'.format(z)]: zero-filled to a width of two, sign included. *)
Definition format_02d (z : Z) : string :=
  let s := format_d z in
  if (String.length s <? 2)%nat then String "0" s else s.

Section Attr.

(** [datetime.datetime.strptime(date_str, '%Y-%m-%dT%H:%M:%SZ')], with
    [None] for the [ValueError] it raises on a string of another shape, and
    the locale's [strftime('%c')] and [strftime('%x')]; they belong to the
    Python library and are kept abstract. *)
Variable datetime : Type.
Variable strptime : string -> option datetime.
Variable strftime_c : datetime -> string.
Variable strftime_x : datetime -> string.

Definition parse_mtime (date_str : string) : result datetime :=
  match strptime date_str with
  | Some d => Return d
  | None => Raise ValueError
  end.

Definition song_attr (song : gmap string string) (attr : string)
    : result string :=
  if String.eqb attr "time" then
    try_except
      (let! v := getitem song "time" in
       let! duration := int v in
       if (duration >? 0)%Z then
         let minutes := (duration / 60)%Z in
         let seconds := (duration mod 60)%Z in
         Return (format_d minutes ++ ":" ++ format_02d seconds)
       else Raise ValueError)
      (Return "")
  else if String.eqb attr "position" then
    try_except
      (let! v := getitem song "pos" in
       let! p := int v in
       Return (format_d (p + 1)))
      (Return "")
  else if String.eqb attr "mtime" then
    let! v := getitem song "last-modified" in
    let! d := parse_mtime v in
    Return (strftime_c d)
  else if String.eqb attr "mdate" then
    let! v := getitem song "last-modified" in
    let! d := parse_mtime v in
    Return (strftime_x d)
  else Return (default "" (song !! attr)).

End Attr.

End Song.

(** ** The width cap of [current_track] *)

Module Status.

(** [s[:stop]]: a negative [stop] counts from the end, and both ends are
    clamped to the string. *)
Definition slice_to (s : string) (stop : Z) : string :=
  let len := Z.of_nat (String.length s) in
  let stop := if (stop <? 0)%Z then Z.max 0 (len + stop) else Z.min stop len in
  substring 0 (Z.to_nat stop) s.

(** Lines 218-219:
    [if len(text) > self.max_width: text = text[:-self.max_width - 3] + '...'],
    where [-self.max_width - 3] is [(-max_width) - 3]. *)
Definition cap_width (max_width : Z) (text : string) : string :=
  if (Z.of_nat (String.length text) >? max_width)%Z
  then slice_to text (- max_width - 3) ++ "..."
  else text.

End Status.

(** ** The parser under a resolver that can raise *)

Module Raising.

Import Template Song.

Section Parser.

(** The resolver [current_track] passes is [attr_getter], which ends in
    [song_attr] and can raise. *)
Variable value_getter : string -> result string.

(** [parse_template] again, line for line as [Template.scope], with the one
    difference that [value_getter(key)] may raise: the exception leaves the
    loop and every enclosing call, no [try] standing in its way. *)
Fixpoint scope (fuel : nat) (instr : string) (ret : list string)
    (found : bool) (calls : list string) : option (result outcome) :=
  match fuel with
  | O => None
  | S fuel =>
    match instr with
    | EmptyString => Some (Return (Outcome (join ret) found "" calls))
    | String char instr =>
      if Ascii.eqb char "%" || Ascii.eqb char "{" then
        let endchar := if Ascii.eqb char "%" then "%"%char else "}"%char in
        let '(key, instr) := takewhile_ne endchar instr in
        match value_getter key with
        | Raise e => Some (Raise e)
        | Return value =>
            if truthy value
            then scope fuel instr (ret ++ [value]) true (calls ++ [key])
            else scope fuel instr ret false (calls ++ [key])
        end
      else if Ascii.eqb char "#" then
        let '(c, instr) := next instr "#" in
        scope fuel instr (ret ++ [String c ""]) found calls
      else if Ascii.eqb char "\" then
        let '(ln, instr) := next instr "\" in
        match escape_char ln with
        | Some c => scope fuel instr (ret ++ [String c ""]) found calls
        | None => scope fuel instr (ret ++ [String ln ""]) found calls
        end
      else if Ascii.eqb char "[" then
        match scope fuel instr [] found calls with
        | None => None
        | Some (Raise e) => Some (Raise e)
        | Some (Return sub) =>
            scope fuel (rest sub) (ret ++ [text sub]) (Template.found sub)
                  (Template.calls sub)
        end
      else if Ascii.eqb char "]" then
        if found then Some (Return (Outcome (join ret) true instr calls))
        else Some (Return (Outcome "" false instr calls))
      else if Ascii.eqb char "|" then
        match scope fuel instr [] found calls with
        | None => None
        | Some (Raise e) => Some (Raise e)
        | Some (Return sub) =>
            if found then
              scope fuel (rest sub) ret found (Template.calls sub)
            else if Template.found sub then
              scope fuel (rest sub) (ret ++ [text sub]) true
                    (Template.calls sub)
            else Some (Return (Outcome "" false (rest sub)
                                       (Template.calls sub)))
        end
      else if Ascii.eqb char "&" then
        match scope fuel instr [] found calls with
        | None => None
        | Some (Raise e) => Some (Raise e)
        | Some (Return sub) =>
            if found && Template.found sub then
              scope fuel (rest sub) (ret ++ [text sub]) found
                    (Template.calls sub)
            else Some (Return (Outcome "" false (rest sub)
                                       (Template.calls sub)))
        end
      else scope fuel instr (ret ++ [String char ""]) found calls
    end
  end.

(** The call on a whole template, [found] at its default, with the fuel
    that [scope_returns] shows to be enough; [text, _ = ...] keeps the
    text. *)
Definition render_text (template : string) : result string :=
  match scope (S (String.length template)) template [] true [] with
  | Some (Return o) => Return (text o)
  | Some (Raise e) => Raise e
  | None => Return ""
  end.

(** The resolver seen as one that always returns: what it returns where it
    does, and the empty string where it raises. *)
Definition returning (key : string) : string :=
  match value_getter key with
  | Return value => value
  | Raise _ => ""
  end.

(** The exception of the first of [keys] on which the resolver raises. *)
Fixpoint first_raise (keys : list string) : option exn :=
  match keys with
  | [] => None
  | key :: keys =>
      match value_getter key with
      | Raise e => Some e
      | Return _ => first_raise keys
      end
  end.

End Parser.

End Raising.

(** ** The rest of [Py3status.current_track] *)

Module Track.

Import Song.

(** The configuration parameters the text depends on, class attributes of
    [Py3status]. *)
Record config := Config {
  format : string;
  hide_when_paused : bool;
  hide_when_stopped : bool;
  max_width : Z;
  state_pause : string;
  state_play : string;
  state_stop : string
}.

(** Their values in the class body. *)
Definition defaults : config := {|
  format := "%state% [[[%artist%] - %title%]|[%file%]]";
  hide_when_paused := false;
  hide_when_stopped := true;
  max_width := 120;
  state_pause := "[pause]";
  state_play := "[play]";
  state_stop := "[stop]"
|}.

(** [_state_character(self, state)]; [state] is [status.get('state')],
    [None] when the key is missing. *)
Definition state_character (self : config) (state : option string)
    : string :=
  match state with
  | Some s =>
      if String.eqb s "play" then state_play self
      else if String.eqb s "pause" then state_pause self
      else if String.eqb s "stop" then state_stop self
      else "?"
  | None => "?"
  end.

(** [s[start:]] for a [start] that is not negative. *)
Fixpoint slice_from (s : string) (start : nat) : string :=
  match start, s with
  | O, _ => s
  | S start, String _ s => slice_from s start
  | S _, EmptyString => ""
  end.

(** The closure [attr_getter] over [song] and [next_song]. *)
Definition attr_getter {datetime : Type}
    (strptime : string -> option datetime)
    (strftime_c strftime_x : datetime -> string)
    (song next_song : gmap string string) (attr : string) : result string :=
  if String.prefix "next_" attr
  then song_attr datetime strptime strftime_c strftime_x next_song
                 (slice_from attr 5)
  else song_attr datetime strptime strftime_c strftime_x song attr.

(** [int(status.get(key, 0))]. *)
Definition status_int (status : gmap string string) (key : string)
    : result Z :=
  match status !! key with
  | Some v => int v
  | None => Return 0%Z
  end.

(** [playlist_info[i]], [None] standing for [IndexError]: an index below
    zero counts from the end of the list. *)
Definition getindex {A : Type} (l : list A) (i : Z) : option A :=
  let n := Z.of_nat (List.length l) in
  if (0 <=? i)%Z then l !! Z.to_nat i
  else if (0 <=? n + i)%Z then l !! Z.to_nat (n + i)
  else None.

(** The [try] block of [current_track] from [status = c.status()] on,
    given what [c.status()] and [c.playlistinfo()] answer: the text before
    the width cap. Neither [KeyError] nor [ValueError] is among the
    exceptions the block catches, so they leave [current_track]. *)
Definition track_text {datetime : Type}
    (strptime : string -> option datetime)
    (strftime_c strftime_x : datetime -> string)
    (self : config) (status : gmap string string)
    (playlist_info : list (gmap string string)) : result string :=
  let! song := status_int status "song" in
  let! next_song := status_int status "nextsong" in
  let state := status !! "state" in
  if (match state with Some s => String.eqb s "pause" | None => false end
      && hide_when_paused self)
     || (match state with Some s => String.eqb s "stop" | None => false end
         && hide_when_stopped self)
  then Return ""
  else
    let song := default ∅ (getindex playlist_info song) in
    let next_song := default ∅ (getindex playlist_info next_song) in
    let label := state_character self state in
    let song := <[ "state" := label ]> song in
    let next_song := <[ "state" := label ]> next_song in
    Raising.render_text
      (attr_getter strptime strftime_c strftime_x song next_song)
      (format self).

(** [full_text]: the text once capped. *)
Definition full_text (self : config) (text : string) : string :=
  Status.cap_width (max_width self) text.

End Track.

(** * Properties of the template parser *)

Module TemplateFacts.

Import Template.

(** ** The iterator only shrinks *)

Lemma takewhile_ne_rest_le (endchar : ascii) (instr : string) :
  String.length (snd (takewhile_ne endchar instr)) <= String.length instr.
Proof.
  induction instr as [|e instr IH]; simpl; [lia|].
  destruct (Ascii.eqb e endchar); simpl; [lia|].
  destruct (takewhile_ne endchar instr) as [key r]; simpl in *; lia.
Qed.

Lemma next_rest_le (instr : string) (d : ascii) :
  String.length (snd (next instr d)) <= String.length instr.
Proof. destruct instr; simpl; lia. Qed.

Section Fuel.

Variable value_getter : string -> string.

Local Abbreviation scope := (Template.scope value_getter).
Local Abbreviation run := (Template.run value_getter).

(** With more fuel than characters left, the loop returns, and it leaves
    no more characters than it was given. *)
Lemma scope_enough_fuel (fuel : nat) :
  forall instr ret found calls,
    String.length instr < fuel ->
    exists o, scope fuel instr ret found calls = Some o
              /\ String.length (rest o) <= String.length instr.
Proof.
  induction fuel as [|fuel IH]; intros instr ret found calls Hlen; [lia|].
  destruct instr as [|char instr]; simpl.
  { eexists; split; [reflexivity|simpl; lia]. }
  simpl in Hlen.
  assert (Hcont : forall instr' ret' found' calls',
             String.length instr' <= String.length instr ->
             exists o, scope fuel instr' ret' found' calls' = Some o
                       /\ String.length (rest o) <= S (String.length instr)).
  { intros instr' ret' found' calls' Hle.
    destruct (IH instr' ret' found' calls') as (o & Ho & Hr); [lia|].
    exists o; split; [exact Ho|lia]. }
  assert (Hsub : forall found' calls',
             exists sub, scope fuel instr [] found' calls' = Some sub
                         /\ String.length (rest sub) <= String.length instr).
  { intros; apply IH; lia. }
  destruct (Ascii.eqb char "%" || Ascii.eqb char "{").
  { pose proof (takewhile_ne_rest_le
                  (if Ascii.eqb char "%" then "%"%char else "}"%char) instr)
      as Htw.
    destruct (takewhile_ne _ instr) as [key instr']; simpl in Htw.
    destruct (truthy (value_getter key)); apply Hcont; exact Htw. }
  destruct (Ascii.eqb char "#").
  { pose proof (next_rest_le instr "#") as Hn.
    destruct (next instr "#") as [c instr']; simpl in Hn.
    apply Hcont; exact Hn. }
  destruct (Ascii.eqb char "\").
  { pose proof (next_rest_le instr "\") as Hn.
    destruct (next instr "\") as [ln instr']; simpl in Hn.
    destruct (escape_char ln); apply Hcont; exact Hn. }
  destruct (Ascii.eqb char "[").
  { destruct (Hsub found calls) as (sub & -> & Hr). apply Hcont; exact Hr. }
  destruct (Ascii.eqb char "]").
  { destruct found; eexists; (split; [reflexivity|simpl; lia]). }
  destruct (Ascii.eqb char "|").
  { destruct (Hsub found calls) as (sub & -> & Hr).
    destruct found; [apply Hcont; exact Hr|].
    destruct (Template.found sub); [apply Hcont; exact Hr|].
    eexists; split; [reflexivity|simpl; lia]. }
  destruct (Ascii.eqb char "&").
  { destruct (Hsub found calls) as (sub & -> & Hr).
    destruct (found && Template.found sub); [apply Hcont; exact Hr|].
    eexists; split; [reflexivity|simpl; lia]. }
  apply Hcont; lia.
Qed.

(** Fuel beyond what a run needs does not change its outcome. *)
Lemma scope_fuel_mono (fuel : nat) :
  forall fuel' instr ret found calls o,
    scope fuel instr ret found calls = Some o ->
    fuel <= fuel' ->
    scope fuel' instr ret found calls = Some o.
Proof.
  induction fuel as [|fuel IH]; intros fuel' instr ret found calls o H Hle;
    [discriminate|].
  destruct fuel' as [|fuel']; [lia|].
  assert (Hle' : fuel <= fuel') by lia.
  simpl in H |- *.
  destruct instr as [|char instr]; [exact H|].
  destruct (Ascii.eqb char "%" || Ascii.eqb char "{").
  { destruct (takewhile_ne _ instr) as [key instr'].
    destruct (truthy (value_getter key)); eapply IH; eauto. }
  destruct (Ascii.eqb char "#").
  { destruct (next instr "#") as [c instr']. eapply IH; eauto. }
  destruct (Ascii.eqb char "\").
  { destruct (next instr "\") as [ln instr'].
    destruct (escape_char ln); eapply IH; eauto. }
  destruct (Ascii.eqb char "[").
  { destruct (Template.scope value_getter fuel instr [] found calls)
      as [sub|] eqn:Hs; [|discriminate].
    rewrite (IH _ _ _ _ _ _ Hs Hle'). eapply IH; eauto. }
  destruct (Ascii.eqb char "]"); [exact H|].
  destruct (Ascii.eqb char "|").
  { destruct (Template.scope value_getter fuel instr [] found calls)
      as [sub|] eqn:Hs; [|discriminate].
    rewrite (IH _ _ _ _ _ _ Hs Hle').
    destruct found; [eapply IH; eauto|].
    destruct (Template.found sub); [eapply IH; eauto|exact H]. }
  destruct (Ascii.eqb char "&").
  { destruct (Template.scope value_getter fuel instr [] found calls)
      as [sub|] eqn:Hs; [|discriminate].
    rewrite (IH _ _ _ _ _ _ Hs Hle').
    destruct (found && Template.found sub); [eapply IH; eauto|exact H]. }
  eapply IH; eauto.
Qed.

(** Any sufficient amount of fuel computes [run]. *)
Lemma scope_run (fuel : nat) (instr : string) (ret : list string)
    (found : bool) (calls : list string) :
  String.length instr < fuel ->
  scope fuel instr ret found calls = Some (run instr ret found calls).
Proof.
  intros Hlen. unfold Template.run.
  destruct (scope_enough_fuel (S (String.length instr)) instr ret found calls)
    as (o & Ho & _); [lia|].
  rewrite Ho. eapply scope_fuel_mono; [exact Ho|lia].
Qed.

Lemma run_rest_le (instr : string) (ret : list string) (found : bool)
    (calls : list string) :
  String.length (rest (run instr ret found calls)) <= String.length instr.
Proof.
  destruct (scope_enough_fuel (S (String.length instr)) instr ret found calls)
    as (o & Ho & Hr); [lia|].
  unfold Template.run. rewrite Ho. exact Hr.
Qed.

(** The loop body, one character at a time: what [run] does on a non-empty
    iterator, every nested call and every continuation being a [run]. *)
Lemma run_cons (char : ascii) (instr : string) (ret : list string)
    (found : bool) (calls : list string) :
  run (String char instr) ret found calls =
    if Ascii.eqb char "%" || Ascii.eqb char "{" then
      let endchar := if Ascii.eqb char "%" then "%"%char else "}"%char in
      let '(key, instr) := takewhile_ne endchar instr in
      let value := value_getter key in
      if truthy value
      then run instr (ret ++ [value]) true (calls ++ [key])
      else run instr ret false (calls ++ [key])
    else if Ascii.eqb char "#" then
      let '(c, instr) := next instr "#" in
      run instr (ret ++ [String c ""]) found calls
    else if Ascii.eqb char "\" then
      let '(ln, instr) := next instr "\" in
      match escape_char ln with
      | Some c => run instr (ret ++ [String c ""]) found calls
      | None => run instr (ret ++ [String ln ""]) found calls
      end
    else if Ascii.eqb char "[" then
      let sub := run instr [] found calls in
      run (rest sub) (ret ++ [text sub]) (Template.found sub)
          (Template.calls sub)
    else if Ascii.eqb char "]" then
      if found then Outcome (join ret) true instr calls
      else Outcome "" false instr calls
    else if Ascii.eqb char "|" then
      let sub := run instr [] found calls in
      if found then run (rest sub) ret found (Template.calls sub)
      else if Template.found sub then
        run (rest sub) (ret ++ [text sub]) true (Template.calls sub)
      else Outcome "" false (rest sub) (Template.calls sub)
    else if Ascii.eqb char "&" then
      let sub := run instr [] found calls in
      if found && Template.found sub then
        run (rest sub) (ret ++ [text sub]) found (Template.calls sub)
      else Outcome "" false (rest sub) (Template.calls sub)
    else run instr (ret ++ [String char ""]) found calls.
Proof.
  unfold Template.run at 1.
  cbn [String.length].
  remember (S (String.length instr)) as n eqn:En.
  cbn [Template.scope].
  assert (Hcont : forall instr' ret' found' calls',
             String.length instr' <= String.length instr ->
             match scope n instr' ret' found' calls'
             with Some o => o | None => Outcome "" false "" calls end
             = run instr' ret' found' calls').
  { intros. rewrite scope_run by lia. reflexivity. }
  pose proof (run_rest_le instr [] found calls) as Hsub.
  destruct (Ascii.eqb char "%" || Ascii.eqb char "{").
  { pose proof (takewhile_ne_rest_le
                  (if Ascii.eqb char "%" then "%"%char else "}"%char) instr)
      as Htw.
    cbv zeta. destruct (takewhile_ne _ instr) as [key instr']; simpl in Htw.
    destruct (truthy (value_getter key)); apply Hcont; exact Htw. }
  destruct (Ascii.eqb char "#").
  { pose proof (next_rest_le instr "#") as Hn.
    destruct (next instr "#") as [c instr']; simpl in Hn.
    apply Hcont; exact Hn. }
  destruct (Ascii.eqb char "\").
  { pose proof (next_rest_le instr "\") as Hn.
    destruct (next instr "\") as [ln instr']; simpl in Hn.
    destruct (escape_char ln); apply Hcont; exact Hn. }
  destruct (Ascii.eqb char "[").
  { rewrite scope_run by lia. cbv zeta. apply Hcont; exact Hsub. }
  destruct (Ascii.eqb char "]"); [destruct found; reflexivity|].
  destruct (Ascii.eqb char "|").
  { rewrite scope_run by lia. cbv zeta.
    destruct found; [apply Hcont; exact Hsub|].
    destruct (Template.found (run instr [] false calls));
      [apply Hcont; exact Hsub|reflexivity]. }
  destruct (Ascii.eqb char "&").
  { rewrite scope_run by lia. cbv zeta.
    destruct (found && Template.found (run instr [] found calls));
      [apply Hcont; exact Hsub|reflexivity]. }
  apply Hcont; lia.
Qed.

(** A character without a branch of its own is appended to [ret]. *)
Lemma run_plain (char : ascii) (instr : string) (ret : list string)
    (found : bool) (calls : list string) :
  special char = false ->
  run (String char instr) ret found calls
  = run instr (ret ++ [String char ""]) found calls.
Proof.
  intros H. rewrite run_cons. unfold special in H.
  repeat (apply orb_false_elim in H; destruct H as [H ?]).
  repeat match goal with E : Ascii.eqb _ _ = false |- _ => rewrite E; clear E
         end.
  reflexivity.
Qed.

Lemma run_nil (ret : list string) (found : bool) (calls : list string) :
  run "" ret found calls = Outcome (join ret) found "" calls.
Proof. reflexivity. Qed.

End Fuel.

(** ** Joining and scanning *)

Lemma append_cons (c : ascii) (s t : string) :
  (String c s ++ t)%string = String c (s ++ t).
Proof. reflexivity. Qed.

Lemma append_empty_r (s : string) : (s ++ "")%string = s.
Proof.
  induction s as [|c s IH]; [reflexivity|].
  rewrite append_cons, IH. reflexivity.
Qed.

Lemma append_assoc (s t u : string) :
  ((s ++ t) ++ u)%string = (s ++ (t ++ u))%string.
Proof.
  induction s as [|c s IH]; [reflexivity|].
  rewrite !append_cons, IH. reflexivity.
Qed.

Lemma append_length (s t : string) :
  String.length (s ++ t) = String.length s + String.length t.
Proof.
  induction s as [|c s IH]; [reflexivity|].
  rewrite append_cons. simpl. rewrite IH. reflexivity.
Qed.

Lemma join_app (l1 l2 : list string) :
  join (l1 ++ l2) = (join l1 ++ join l2)%string.
Proof.
  induction l1 as [|s l1 IH]; [reflexivity|].
  simpl. rewrite IH. symmetry. apply append_assoc.
Qed.

Lemma join_snoc (l : list string) (s : string) :
  join (l ++ [s]) = (join l ++ s)%string.
Proof.
  rewrite join_app. unfold join at 2. simpl.
  rewrite append_empty_r. reflexivity.
Qed.

(** Scanning for [endchar] stops at its first occurrence. *)
Lemma takewhile_ne_found (endchar : ascii) (key after : string) :
  occurs endchar key = false ->
  takewhile_ne endchar (key ++ String endchar after) = (key, after).
Proof.
  induction key as [|e key IH]; intros H.
  - change (takewhile_ne endchar (String endchar after) = ("", after)).
    simpl. rewrite Ascii.eqb_refl. reflexivity.
  - simpl in H. apply orb_false_elim in H as [He Hk].
    rewrite append_cons. simpl. rewrite He, (IH Hk). reflexivity.
Qed.

(** Without any [endchar], scanning takes everything that is left. *)
Lemma takewhile_ne_exhausts (endchar : ascii) (key : string) :
  occurs endchar key = false ->
  takewhile_ne endchar key = (key, "").
Proof.
  induction key as [|e key IH]; simpl; intros H; [reflexivity|].
  apply orb_false_elim in H as [He Hk].
  rewrite He, (IH Hk). reflexivity.
Qed.

Lemma remains_refl (s : string) : remains s s.
Proof. exists "". reflexivity. Qed.

Lemma remains_trans (s t u : string) :
  remains s t -> remains t u -> remains s u.
Proof.
  intros [p ->] [q ->]. exists (p ++ q). symmetry. apply append_assoc.
Qed.

Lemma remains_cons (c : ascii) (s t : string) :
  remains s t -> remains (String c s) t.
Proof. intros [p ->]. exists (String c p). reflexivity. Qed.

Lemma remains_length (s t : string) :
  remains s t -> String.length t <= String.length s.
Proof. intros [p ->]. rewrite append_length. lia. Qed.

Lemma takewhile_ne_remains (endchar : ascii) (instr : string) :
  remains instr (snd (takewhile_ne endchar instr)).
Proof.
  induction instr as [|e instr IH]; simpl; [apply remains_refl|].
  destruct (Ascii.eqb e endchar); simpl.
  - apply remains_cons, remains_refl.
  - destruct (takewhile_ne endchar instr) as [key r]; simpl in *.
    apply remains_cons, IH.
Qed.

Lemma next_remains (instr : string) (d : ascii) :
  remains instr (snd (next instr d)).
Proof.
  destruct instr; simpl; [apply remains_refl|].
  apply remains_cons, remains_refl.
Qed.

Section Scopes.

Variable value_getter : string -> string.

Local Abbreviation run := (Template.run value_getter).

Lemma sound_step (char : ascii) (instr instr' : string)
    (calls calls' : list string) (o : outcome) :
  remains instr instr' ->
  (exists more, calls' = (calls ++ more)%list) ->
  sound instr' calls' o ->
  sound (String char instr) calls o.
Proof.
  intros Hr [m ->] (Hro & [m' Hc] & Ht). repeat split.
  - apply remains_cons. eapply remains_trans; eassumption.
  - exists (m ++ m')%list. rewrite Hc. symmetry. apply app_assoc.
  - exact Ht.
Qed.

Lemma run_sound_bounded (n : nat) :
  forall instr ret found calls,
    String.length instr <= n ->
    sound instr calls (run instr ret found calls).
Proof.
  induction n as [|n IH]; intros instr ret found calls Hlen.
  { destruct instr; [|simpl in Hlen; lia]. rewrite run_nil.
    repeat split; simpl; [apply remains_refl|exists []; symmetry;
      apply app_nil_r|congruence]. }
  destruct instr as [|char instr].
  { rewrite run_nil.
    repeat split; simpl; [apply remains_refl|exists []; symmetry;
      apply app_nil_r|congruence]. }
  simpl in Hlen.
  assert (Hnone : exists more : list string, calls = (calls ++ more)%list)
    by (exists []; symmetry; apply app_nil_r).
  assert (Hstop : forall after calls',
             remains instr after ->
             (exists more, calls' = (calls ++ more)%list) ->
             sound (String char instr) calls
                   (Outcome "" false after calls')).
  { intros after calls' Hr Hc. repeat split; simpl;
      [apply remains_cons, Hr|exact Hc]. }
  assert (Hsub : forall found', sound instr calls (run instr [] found' calls))
    by (intros; apply IH; lia).
  assert (Hcont : forall instr' ret' found' calls',
             remains instr instr' ->
             (exists more, calls' = (calls ++ more)%list) ->
             sound (String char instr) calls
                   (run instr' ret' found' calls')).
  { intros instr' ret' found' calls' Hr Hc.
    eapply sound_step; [exact Hr|exact Hc|].
    apply IH. apply remains_length in Hr. lia. }
  rewrite run_cons.
  destruct (Ascii.eqb char "%" || Ascii.eqb char "{").
  { pose proof (takewhile_ne_remains
                  (if Ascii.eqb char "%" then "%"%char else "}"%char) instr)
      as Htw.
    cbv zeta. destruct (takewhile_ne _ instr) as [key instr']; simpl in Htw.
    destruct (truthy (value_getter key)); apply Hcont; eauto. }
  destruct (Ascii.eqb char "#").
  { pose proof (next_remains instr "#") as Hn.
    destruct (next instr "#") as [c instr']; simpl in Hn.
    apply Hcont; eauto. }
  destruct (Ascii.eqb char "\").
  { pose proof (next_remains instr "\") as Hn.
    destruct (next instr "\") as [ln instr']; simpl in Hn.
    destruct (escape_char ln); apply Hcont; eauto. }
  destruct (Ascii.eqb char "[").
  { cbv zeta. destruct (Hsub found) as (Hr & Hc & _). apply Hcont; eauto. }
  destruct (Ascii.eqb char "]").
  { destruct found; [|apply Hstop; auto using remains_refl].
    repeat split; simpl;
      [apply remains_cons, remains_refl|exact Hnone|discriminate]. }
  destruct (Ascii.eqb char "|").
  { cbv zeta. destruct (Hsub found) as (Hr & Hc & _).
    destruct found; [apply Hcont; eauto|].
    destruct (Template.found (run instr [] false calls));
      [apply Hcont; eauto|apply Hstop; auto]. }
  destruct (Ascii.eqb char "&").
  { cbv zeta. destruct (Hsub found) as (Hr & Hc & _).
    destruct (found && Template.found (run instr [] found calls));
      [apply Hcont; eauto|apply Hstop; auto]. }
  apply Hcont; auto using remains_refl.
Qed.

Lemma run_sound (instr : string) (ret : list string) (found : bool)
    (calls : list string) :
  sound instr calls (run instr ret found calls).
Proof. apply (run_sound_bounded (String.length instr)). lia. Qed.

(** Copied characters reach the output one by one and leave [found] and
    the call log alone. *)
Lemma run_literal (template : string) :
  forall ret found calls,
    literal template = true ->
    run template ret found calls
    = Outcome (join ret ++ template) found "" calls.
Proof.
  induction template as [|char template IH]; intros ret found calls H.
  - rewrite run_nil, append_empty_r. reflexivity.
  - simpl in H. apply andb_prop in H as [Hc Ht].
    apply negb_true_iff in Hc.
    rewrite run_plain, IH, join_snoc, append_assoc by assumption.
    reflexivity.
Qed.

(** A placeholder whose end marker is present: the key is what stands
    between the markers, and the loop goes on after the end marker. *)
Lemma run_placeholder_closed (char endchar : ascii) (key after : string)
    (ret : list string) (found : bool) (calls : list string) :
  (char = "%"%char /\ endchar = "%"%char)
  \/ (char = "{"%char /\ endchar = "}"%char) ->
  occurs endchar key = false ->
  run (String char (key ++ String endchar after)) ret found calls
  = if truthy (value_getter key)
    then run after (ret ++ [value_getter key]) true (calls ++ [key])
    else run after ret false (calls ++ [key]).
Proof.
  intros [[-> ->]|[-> ->]] Hk; rewrite run_cons; simpl;
    rewrite (takewhile_ne_found _ _ _ Hk); reflexivity.
Qed.

(** A placeholder whose end marker is missing: the key is everything that
    is left. *)
Lemma run_placeholder_open (char endchar : ascii) (key : string)
    (ret : list string) (found : bool) (calls : list string) :
  (char = "%"%char /\ endchar = "%"%char)
  \/ (char = "{"%char /\ endchar = "}"%char) ->
  occurs endchar key = false ->
  run (String char key) ret found calls
  = if truthy (value_getter key)
    then Outcome (join ret ++ value_getter key) true "" (calls ++ [key])
    else Outcome (join ret) false "" (calls ++ [key]).
Proof.
  intros [[-> ->]|[-> ->]] Hk; rewrite run_cons; simpl;
    rewrite (takewhile_ne_exhausts _ _ Hk);
    destruct (truthy (value_getter key)); rewrite run_nil, ?join_snoc;
    reflexivity.
Qed.

(** The list [ret] matters only through the string it joins to. *)
Lemma run_join_bounded (n : nat) :
  forall instr ret ret' found calls,
    String.length instr <= n ->
    join ret = join ret' ->
    run instr ret found calls = run instr ret' found calls.
Proof.
  induction n as [|n IH]; intros instr ret ret' found calls Hlen Hj.
  { destruct instr; [|simpl in Hlen; lia]. rewrite !run_nil, Hj.
    reflexivity. }
  destruct instr as [|char instr]; [rewrite !run_nil, Hj; reflexivity|].
  simpl in Hlen.
  assert (Hsnoc : forall s, join (ret ++ [s]) = join (ret' ++ [s]))
    by (intros; rewrite !join_snoc, Hj; reflexivity).
  assert (Hcont : forall instr' r r' found' calls',
             String.length instr' <= String.length instr ->
             join r = join r' ->
             run instr' r found' calls' = run instr' r' found' calls')
    by (intros; apply IH; [lia|assumption]).
  pose proof (run_rest_le value_getter instr [] found calls) as Hsub.
  rewrite !run_cons.
  destruct (Ascii.eqb char "%" || Ascii.eqb char "{").
  { pose proof (takewhile_ne_rest_le
                  (if Ascii.eqb char "%" then "%"%char else "}"%char) instr)
      as Htw.
    cbv zeta. destruct (takewhile_ne _ instr) as [key instr']; simpl in Htw.
    destruct (truthy (value_getter key)); apply Hcont; auto. }
  destruct (Ascii.eqb char "#").
  { pose proof (next_rest_le instr "#") as Hn.
    destruct (next instr "#") as [c instr']; simpl in Hn.
    apply Hcont; auto. }
  destruct (Ascii.eqb char "\").
  { pose proof (next_rest_le instr "\") as Hn.
    destruct (next instr "\") as [ln instr']; simpl in Hn.
    destruct (escape_char ln); apply Hcont; auto. }
  destruct (Ascii.eqb char "["); [cbv zeta; apply Hcont; auto|].
  destruct (Ascii.eqb char "]"); [rewrite Hj; reflexivity|].
  destruct (Ascii.eqb char "|").
  { cbv zeta. destruct found; [apply Hcont; auto|].
    destruct (Template.found (run instr [] false calls));
      [apply Hcont; auto|reflexivity]. }
  destruct (Ascii.eqb char "&").
  { cbv zeta.
    destruct (found && Template.found (run instr [] found calls));
      [apply Hcont; auto|reflexivity]. }
  apply Hcont; auto.
Qed.

Lemma run_join (instr : string) (ret ret' : list string) (found : bool)
    (calls : list string) :
  join ret = join ret' ->
  run instr ret found calls = run instr ret' found calls.
Proof. apply (run_join_bounded (String.length instr)). lia. Qed.

(** Appending the empty string to [ret] adds nothing. *)
Lemma run_snoc_empty (instr : string) (ret : list string) (found : bool)
    (calls : list string) :
  run instr (ret ++ [""]) found calls = run instr ret found calls.
Proof. apply run_join. rewrite join_snoc. apply append_empty_r. Qed.

(** Copied characters in front of the rest of a scope. *)
Lemma run_literal_prefix (lit : string) :
  forall instr ret found calls,
    literal lit = true ->
    run (lit ++ instr) ret found calls
    = run instr (ret ++ [lit]) found calls.
Proof.
  induction lit as [|char lit IH]; intros instr ret found calls H.
  - change ("" ++ instr)%string with instr. symmetry. apply run_snoc_empty.
  - simpl in H. apply andb_prop in H as [Hc Hl].
    apply negb_true_iff in Hc.
    rewrite append_cons, run_plain, IH by assumption.
    apply run_join. rewrite !join_snoc. apply append_assoc.
Qed.

End Scopes.

(** Runs the loop on a template that is written out, one character after
    the other, down to its outcome; resolver values are taken from the
    hypotheses. *)
Ltac run_template :=
  unfold render, parse_template;
  repeat first
    [ rewrite run_cons; cbn
    | rewrite run_nil; cbn
    | match goal with
      | H : ?value_getter _ = _ |- _ => rewrite H; cbn
      end ];
  try reflexivity.

End TemplateFacts.

(** * What the parser is specified to do *)

Module TemplateSpec.

Import Template TemplateFacts.

(** C8. [parse_template] returns on every template and with every resolver
    that returns, well-formed template or not: any amount of fuel above the
    number of characters left lets the loop run to its [return], the result
    is the [(text, found)] pair of [parse_template], and the iterator it
    leaves behind is what remained of the one it was given, which is only
    ever consumed. *)
Theorem parse_template_terminates (value_getter : string -> string)
    (instr : string) (found : bool) (calls : list string) (fuel : nat) :
  String.length instr < fuel ->
  scope value_getter fuel instr [] found calls
  = Some (parse_template value_getter instr found calls)
  /\ remains instr (rest (parse_template value_getter instr found calls))
  /\ render value_getter instr
     = (text (parse_template value_getter instr true []),
        Template.found (parse_template value_getter instr true [])).
Proof.
  intros Hlen. split; [|split].
  - apply scope_run. exact Hlen.
  - apply run_sound.
  - reflexivity.
Qed.

Lemma parse_template_terminates_witness :
  scope (fun _ => "x") 8 "[[%a|&]" [] true []
  = Some (parse_template (fun _ => "x") "[[%a|&]" true [])
  /\ remains "[[%a|&]" (rest (parse_template (fun _ => "x") "[[%a|&]" true []))
  /\ render (fun _ => "x") "[[%a|&]"
     = (text (parse_template (fun _ => "x") "[[%a|&]" true []),
        Template.found (parse_template (fun _ => "x") "[[%a|&]" true [])).
Proof.
  apply (parse_template_terminates (fun _ => "x") "[[%a|&]" true [] 8).
  simpl. lia.
Defined.

(** C2, as the code has it. A template without any of the characters
    [%], [{], [#], [\], [[], []], [|] and [&] is returned unchanged, and
    [found] keeps its initial value [True], for the empty template too;
    the resolver is never called. *)
Theorem render_literal (value_getter : string -> string)
    (template : string) :
  literal template = true ->
  render value_getter template = (template, true)
  /\ calls (parse_template value_getter template true []) = [].
Proof.
  intros H. unfold render, parse_template.
  rewrite (run_literal value_getter template [] true [] H).
  split; reflexivity.
Qed.

Lemma render_literal_witness :
  render (fun _ => "") "Now playing: " = ("Now playing: ", true)
  /\ calls (parse_template (fun _ => "") "Now playing: " true []) = [].
Proof.
  apply (render_literal (fun _ => "") "Now playing: "). reflexivity.
Defined.

(** C2 as stated fails twice. The empty template has no placeholder,
    operator or bracket, and its [found] is [True], the default of the
    parameter, not [False]; the template [#a] has none either, and it is
    not returned unchanged: [#] makes the loop copy the character after
    it. *)
Lemma render_literal_counterexample :
  render (fun _ => "") "" = ("", true)
  /\ render (fun _ => "") "#a" = ("a", true).
Proof. split; reflexivity. Qed.

(** C10. A placeholder whose start marker is never followed by its end
    marker takes every remaining character as its key; the resolver is
    called once, on that key; the value, when not empty, is appended and
    [found] is set, otherwise [found] is cleared; the loop then returns at
    the end of the input, and nothing that stood after the start marker is
    copied to the output. After a prefix of copied characters this is the
    whole rendering. *)
Theorem unterminated_placeholder (value_getter : string -> string)
    (char endchar : ascii) (key : string) :
  (char = "%"%char /\ endchar = "%"%char)
  \/ (char = "{"%char /\ endchar = "}"%char) ->
  occurs endchar key = false ->
  (forall ret found calls,
      run value_getter (String char key) ret found calls
      = if truthy (value_getter key)
        then Outcome (join ret ++ value_getter key) true ""
                     (calls ++ [key])
        else Outcome (join ret) false "" (calls ++ [key]))
  /\ (forall lit,
         literal lit = true ->
         render value_getter (lit ++ String char key)
         = (if truthy (value_getter key)
            then (lit ++ value_getter key, true) else (lit, false))
         /\ calls (parse_template value_getter (lit ++ String char key)
                                  true [])
            = [key]).
Proof.
  intros Hc Hk. split.
  - intros. apply run_placeholder_open with (endchar := endchar); assumption.
  - intros lit Hl. unfold render, parse_template.
    rewrite run_literal_prefix by exact Hl.
    rewrite (run_placeholder_open value_getter char endchar key _ _ _ Hc Hk).
    rewrite join_snoc.
    destruct (truthy (value_getter key)); split; reflexivity.
Qed.

Lemma unterminated_placeholder_witness :
  (forall ret found calls,
      run (fun _ => "Z") "{title - %artist" ret found calls
      = Outcome (join ret ++ "Z") true "" (calls ++ ["title - %artist"]))
  /\ (forall lit,
         literal lit = true ->
         render (fun _ => "Z") (lit ++ "{title - %artist")
         = (lit ++ "Z", true)
         /\ calls (parse_template (fun _ => "Z") (lit ++ "{title - %artist")
                                  true [])
            = ["title - %artist"]).
Proof.
  apply (unterminated_placeholder (fun _ => "Z") "{" "}" "title - %artist").
  - right. split; reflexivity.
  - reflexivity.
Defined.

(** C9. A key without [%], [{] or [}] renders the same between [%...%]
    and between [{...}], alone as a template and in front of anything
    else in any scope: the value when it is not empty, with [found] set,
    and nothing, with [found] cleared, when it is. *)
Theorem placeholder_delimiters (value_getter : string -> string)
    (k : string) :
  occurs "%" k = false -> occurs "{" k = false -> occurs "}" k = false ->
  render value_getter ("%" ++ k ++ "%") = render value_getter ("{" ++ k ++ "}")
  /\ render value_getter ("%" ++ k ++ "%")
     = (value_getter k, truthy (value_getter k))
  /\ (forall after ret found calls,
         run value_getter (String "%" (k ++ String "%" after)) ret found calls
         = run value_getter (String "{" (k ++ String "}" after))
               ret found calls).
Proof.
  intros Hp _ Hb.
  assert (Hpct : forall after ret found calls,
             run value_getter (String "%" (k ++ String "%" after))
                 ret found calls
             = if truthy (value_getter k)
               then run value_getter after (ret ++ [value_getter k]) true
                        (calls ++ [k])
               else run value_getter after ret false (calls ++ [k])).
  { intros. apply run_placeholder_closed with (endchar := "%"%char);
      [left; split; reflexivity|exact Hp]. }
  assert (Hbrace : forall after ret found calls,
             run value_getter (String "{" (k ++ String "}" after))
                 ret found calls
             = if truthy (value_getter k)
               then run value_getter after (ret ++ [value_getter k]) true
                        (calls ++ [k])
               else run value_getter after ret false (calls ++ [k])).
  { intros. apply run_placeholder_closed with (endchar := "}"%char);
      [right; split; reflexivity|exact Hb]. }
  assert (Hone : render value_getter ("%" ++ k ++ "%")
                 = (value_getter k, truthy (value_getter k))).
  { unfold render, parse_template.
    change ("%" ++ k ++ "%")%string with (String "%" (k ++ String "%" "")).
    rewrite Hpct.
    destruct (value_getter k) as [|c v] eqn:Hv; cbn [truthy];
      rewrite run_nil; cbn [text found]; rewrite ?join_snoc; reflexivity. }
  split; [|split].
  - rewrite Hone. unfold render, parse_template.
    change ("{" ++ k ++ "}")%string with (String "{" (k ++ String "}" "")).
    rewrite Hbrace.
    destruct (value_getter k) as [|c v] eqn:Hv; cbn [truthy];
      rewrite run_nil; cbn [text found]; rewrite ?join_snoc; reflexivity.
  - exact Hone.
  - intros. rewrite Hpct, Hbrace. reflexivity.
Qed.

Lemma placeholder_delimiters_witness :
  let value_getter := fun k => if String.eqb k "artist" then "Moondog" else "" in
  render value_getter ("%" ++ "artist" ++ "%")
  = render value_getter ("{" ++ "artist" ++ "}")
  /\ render value_getter ("%" ++ "artist" ++ "%")
     = (value_getter "artist", truthy (value_getter "artist"))
  /\ (forall after ret found calls,
         run value_getter (String "%" ("artist" ++ String "%" after))
             ret found calls
         = run value_getter (String "{" ("artist" ++ String "}" after))
               ret found calls).
Proof.
  apply (placeholder_delimiters
           (fun k => if String.eqb k "artist" then "Moondog" else "")
           "artist"); reflexivity.
Defined.

(** C3, as the code has it. The scope opened by [[] is the nested call,
    and the parent appends whatever text it returns and takes over its
    [found]. A nested call that returns with [found] false before the end
    of the input returns no text, so the group adds nothing to the parent,
    whose [found] becomes false; a []] met with [found] false is such a
    return. A nested call that runs into the end of the input returns the
    text it has gathered together with its [found], whatever that is: with
    [found] true this is what a closing bracket would have given, and
    [[%a%] with [a] resolved to [Z] renders as [("Z", True)]; with [found]
    false the text is kept. *)
Theorem optional_group (value_getter : string -> string) :
  (forall instr ret found calls,
      let sub := parse_template value_getter instr found calls in
      run value_getter (String "[" instr) ret found calls
      = run value_getter (rest sub) (ret ++ [text sub]) (Template.found sub)
            (Template.calls sub)
      /\ (Template.found sub = false -> rest sub <> "" ->
          text sub = ""
          /\ run value_getter (String "[" instr) ret found calls
             = run value_getter (rest sub) ret false (Template.calls sub))
      /\ (rest sub = "" ->
          run value_getter (String "[" instr) ret found calls
          = Outcome (join ret ++ text sub) (Template.found sub) ""
                    (Template.calls sub)))
  /\ (forall after ret calls,
         run value_getter (String "]" after) ret false calls
         = Outcome "" false after calls)
  /\ (forall ret found calls,
         run value_getter "" ret found calls
         = Outcome (join ret) found "" calls)
  /\ (value_getter "a" = "Z" -> render value_getter "[%a%" = ("Z", true)).
Proof.
  split; [|split; [|split]].
  - intros instr ret found calls sub.
    assert (Hgroup : run value_getter (String "[" instr) ret found calls
                     = run value_getter (rest sub) (ret ++ [text sub])
                           (Template.found sub) (Template.calls sub))
      by (rewrite run_cons; reflexivity).
    pose proof (run_sound value_getter instr [] found calls) as Hsound.
    change (run value_getter instr [] found calls) with sub in Hsound.
    destruct Hsound as (_ & _ & Ht). clearbody sub.
    split; [exact Hgroup|split].
    + intros Hf Hr. pose proof (Ht Hf Hr) as Hempty.
      split; [exact Hempty|].
      rewrite Hgroup, Hempty, Hf. apply run_snoc_empty.
    + intros Hr. rewrite Hgroup, Hr, run_nil, join_snoc. reflexivity.
  - intros. rewrite run_cons. reflexivity.
  - intros. apply run_nil.
  - intros Ha. run_template.
Qed.

Lemma optional_group_witness :
  let value_getter := fun k => if String.eqb k "a" then "Z" else "" in
  render value_getter "[%a%" = ("Z", true)
  /\ run value_getter "[x%b%]y" [] true []
     = run value_getter "y" [] false ["b"].
Proof.
  pose proof (optional_group (fun k => if String.eqb k "a" then "Z" else ""))
    as (Hgroup & _ & _ & Hex).
  split.
  - apply Hex. reflexivity.
  - destruct (Hgroup "x%b%]y" [] true []) as (_ & Hdrop & _).
    apply Hdrop; [reflexivity|discriminate].
Defined.

(** C3 as stated fails on a group that is never closed and whose scope
    ends with [found] false: in [[x%b%], with [b] resolved to nothing, the
    nested scope ends at the end of the input with [found] false, and its
    text [x] is handed to the parent and rendered, where the same group
    closed by []] renders nothing. *)
Lemma optional_group_counterexample :
  render (fun _ => "") "[x%b%" = ("x", false)
  /\ render (fun _ => "") "[x%b%]" = ("", false).
Proof. split; reflexivity. Qed.

(** C4. At a [|] the rest of the scope is parsed by a nested call started
    with the current [found], which consumes its characters from the shared
    iterator in every case. If the scope is already found, the text of the
    nested call is dropped and the loop goes on where the nested call
    stopped; if it is not and the nested call is found, its text is
    appended and the scope becomes found; if neither is, the scope returns
    [('', False)] at once. So [[%missing%]|[%present%]], with [missing]
    resolved to nothing and [present] to [X], renders as [("X", True)]. *)
Theorem alternation (value_getter : string -> string) :
  (forall instr ret found calls,
      let sub := parse_template value_getter instr found calls in
      remains instr (rest sub)
      /\ (found = true ->
          run value_getter (String "|" instr) ret found calls
          = run value_getter (rest sub) ret true (Template.calls sub))
      /\ (found = false -> Template.found sub = true ->
          run value_getter (String "|" instr) ret found calls
          = run value_getter (rest sub) (ret ++ [text sub]) true
                (Template.calls sub))
      /\ (found = false -> Template.found sub = false ->
          run value_getter (String "|" instr) ret found calls
          = Outcome "" false (rest sub) (Template.calls sub)))
  /\ (value_getter "missing" = "" -> value_getter "present" = "X" ->
      render value_getter "[%missing%]|[%present%]" = ("X", true)).
Proof.
  split.
  - intros instr ret found calls sub. split; [apply run_sound|].
    split; [|split].
    + intros ->. rewrite run_cons. reflexivity.
    + intros -> Hs. rewrite run_cons. cbn.
      change (run value_getter instr [] false calls) with sub.
      rewrite Hs. reflexivity.
    + intros -> Hs. rewrite run_cons. cbn.
      change (run value_getter instr [] false calls) with sub.
      rewrite Hs. reflexivity.
  - intros Hm Hp. run_template.
Qed.

Lemma alternation_witness :
  let value_getter := fun k => if String.eqb k "present" then "X" else "" in
  render value_getter "[%missing%]|[%present%]" = ("X", true)
  /\ run value_getter "|b]c" ["a"] true [] = run value_getter "c" ["a"] true []
  /\ run value_getter "|%present%]c" [] false []
     = run value_getter "c" ["X"] true ["present"]
  /\ run value_getter "|%absent%]c" ["a"] false []
     = Outcome "" false "c" ["absent"].
Proof.
  pose proof (alternation
                (fun k => if String.eqb k "present" then "X" else ""))
    as (Hor & Hex).
  split; [apply Hex; reflexivity|].
  split; [|split].
  - destruct (Hor "b]c" ["a"] true []) as (_ & H & _). apply H. reflexivity.
  - destruct (Hor "%present%]c" [] false []) as (_ & _ & H & _).
    apply H; reflexivity.
  - destruct (Hor "%absent%]c" ["a"] false []) as (_ & _ & _ & H).
    apply H; reflexivity.
Defined.

(** C5. At a [&] the rest of the scope is parsed by a nested call started
    with the current [found]. Its text is appended, the scope staying
    found, only when the scope and the nested call are both found;
    otherwise the scope returns [('', False)] at once. So [[%a%]&[%b%]],
    with [a] resolved to [1] and [b] to nothing, renders as
    [("", False)]. *)
Theorem conjunction (value_getter : string -> string) :
  (forall instr ret found calls,
      let sub := parse_template value_getter instr found calls in
      remains instr (rest sub)
      /\ (found = true -> Template.found sub = true ->
          run value_getter (String "&" instr) ret found calls
          = run value_getter (rest sub) (ret ++ [text sub]) true
                (Template.calls sub))
      /\ (found = false \/ Template.found sub = false ->
          run value_getter (String "&" instr) ret found calls
          = Outcome "" false (rest sub) (Template.calls sub)))
  /\ (value_getter "a" = "1" -> value_getter "b" = "" ->
      render value_getter "[%a%]&[%b%]" = ("", false)).
Proof.
  split.
  - intros instr ret found calls sub. split; [apply run_sound|]. split.
    + intros -> Hs. rewrite run_cons. cbn.
      change (run value_getter instr [] true calls) with sub.
      rewrite Hs. reflexivity.
    + intros Hno. rewrite run_cons. cbn.
      change (run value_getter instr [] found calls) with sub.
      destruct Hno as [-> | ->]; [reflexivity|].
      rewrite andb_false_r. reflexivity.
  - intros Ha Hb. run_template.
Qed.

Lemma conjunction_witness :
  let value_getter := fun k => if String.eqb k "a" then "1" else "" in
  render value_getter "[%a%]&[%b%]" = ("", false)
  /\ run value_getter "&%a%]c" ["x"] true []
     = run value_getter "c" ["x"; "1"] true ["a"]
  /\ run value_getter "&%b%]c" ["x"] true [] = Outcome "" false "c" ["b"].
Proof.
  pose proof (conjunction (fun k => if String.eqb k "a" then "1" else ""))
    as (Hand & Hex).
  split; [apply Hex; reflexivity|]. split.
  - destruct (Hand "%a%]c" ["x"] true []) as (_ & H & _).
    apply H; reflexivity.
  - destruct (Hand "%b%]c" ["x"] true []) as (_ & _ & H).
    apply H. right. reflexivity.
Defined.

End TemplateSpec.

(** * Properties of the song attributes *)

Module SongSpec.

Import Song.

(** Seconds within a minute are printed as exactly two decimal digits. *)
Lemma format_02d_seconds (s : Z) :
  (0 <= s < 60)%Z ->
  format_02d s
  = String (ascii_of_N (48 + Z.to_N (s / 10)))
           (String (ascii_of_N (48 + Z.to_N (s mod 10))) "").
Proof.
  intros Hs.
  assert (Hn : exists n, n < 60 /\ s = Z.of_nat n)
    by (exists (Z.to_nat s); lia).
  destruct Hn as (n & Hn & ->). clear Hs.
  do 60 (destruct n as [|n]; [reflexivity|]). lia.
Qed.

Section Attr.

Variable datetime : Type.
Variable strptime : string -> option datetime.
Variable strftime_c : datetime -> string.
Variable strftime_x : datetime -> string.

Local Abbreviation song_attr :=
  (Song.song_attr datetime strptime strftime_c strftime_x).

(** Every attribute but the two dates is answered with a string: the
    [try] blocks of [time] and [position] catch both exceptions, and the
    other attributes are read with [dict.get]. *)
Lemma song_attr_returns (song : gmap string string) (attr : string) :
  attr <> "mtime" -> attr <> "mdate" ->
  exists s, song_attr song attr = Return s.
Proof.
  intros Hc Hx. unfold Song.song_attr.
  destruct (String.eqb attr "time").
  { unfold getitem, int. destruct (song !! "time") as [v|]; simpl;
      [|eexists; reflexivity].
    destruct (py_int v) as [d|]; simpl; [|eexists; reflexivity].
    destruct (d >? 0)%Z; simpl; eexists; reflexivity. }
  destruct (String.eqb attr "position").
  { unfold getitem, int. destruct (song !! "pos") as [v|]; simpl;
      [|eexists; reflexivity].
    destruct (py_int v) as [d|]; simpl; eexists; reflexivity. }
  apply String.eqb_neq in Hc, Hx. rewrite Hc, Hx.
  eexists; reflexivity.
Qed.

(** A [last-modified] value of another shape than the expected timestamp
    makes both date attributes raise [ValueError]. *)
Lemma song_attr_date_invalid (song : gmap string string) (v : string) :
  song !! "last-modified" = Some v -> strptime v = None ->
  song_attr song "mtime" = Raise ValueError
  /\ song_attr song "mdate" = Raise ValueError.
Proof.
  intros Hv Hp. unfold Song.song_attr, getitem, parse_mtime.
  simpl. rewrite Hv. simpl. rewrite Hp. split; reflexivity.
Qed.

(** C1, where the code departs from it. The song is the one [current_track]
    builds when the playlist has no entry at the current position: an
    empty [dict] to which only [state] is added. Asked for [mtime] or
    [mdate], [song_attr] reads [song['last-modified']] outside any [try],
    and the [KeyError] is raised to the caller instead of an empty string
    being returned. *)
Theorem song_attr_date_raises :
  song_attr {[ "state" := "[play]" ]} "mtime" = Raise KeyError
  /\ song_attr {[ "state" := "[play]" ]} "mdate" = Raise KeyError.
Proof. split; reflexivity. Qed.

(** C7. For [time], a value that [int] reads as a number above zero is
    printed as the minutes, a colon, and the seconds on two digits; a
    missing value, one that [int] rejects and a number that is zero or
    below all give the empty string. 125 seconds are [2:05]. *)
Theorem song_attr_time (song : gmap string string) :
  (forall v d,
      song !! "time" = Some v -> py_int v = Some d -> (0 < d)%Z ->
      song_attr song "time"
      = Return (format_d (d / 60) ++ ":" ++ format_02d (d mod 60))
      /\ String.length (format_02d (d mod 60)) = 2)
  /\ (song !! "time" = None -> song_attr song "time" = Return "")
  /\ (forall v,
         song !! "time" = Some v -> py_int v = None ->
         song_attr song "time" = Return "")
  /\ (forall v d,
         song !! "time" = Some v -> py_int v = Some d -> (d <= 0)%Z ->
         song_attr song "time" = Return "")
  /\ (song !! "time" = Some "125" -> song_attr song "time" = Return "2:05").
Proof.
  unfold Song.song_attr, getitem, int. cbn [String.eqb Ascii.eqb Bool.eqb].
  split; [|split; [|split; [|split]]].
  - intros v d Hv Hi Hd. rewrite Hv. cbn [bind]. rewrite Hi. cbn [bind].
    assert (Hgt : (d >? 0)%Z = true) by lia. rewrite Hgt. split.
    + reflexivity.
    + rewrite format_02d_seconds by (apply Z.mod_pos_bound; lia).
      reflexivity.
  - intros ->. reflexivity.
  - intros v Hv Hi. rewrite Hv. cbn [bind]. rewrite Hi. reflexivity.
  - intros v d Hv Hi Hd. rewrite Hv. cbn [bind]. rewrite Hi. cbn [bind].
    assert (Hle : (d >? 0)%Z = false) by lia. rewrite Hle. reflexivity.
  - intros ->. reflexivity.
Qed.

End Attr.

Lemma song_attr_time_witness :
  let song_attr := Song.song_attr unit (fun _ => None) (fun _ => "")
                                  (fun _ => "") in
  song_attr {[ "time" := "754" ]} "time" = Return "12:34"
  /\ song_attr {[ "artist" := "Moondog" ]} "time" = Return ""
  /\ song_attr {[ "time" := "3:20" ]} "time" = Return ""
  /\ song_attr {[ "time" := "-7" ]} "time" = Return ""
  /\ song_attr {[ "time" := "125" ]} "time" = Return "2:05".
Proof.
  pose (lib := song_attr_time unit (fun _ => None) (fun _ => "")
                              (fun _ => "")).
  split; [|split; [|split; [|split]]].
  - apply (proj1 (lib {[ "time" := "754" ]}) "754" 754%Z);
      [reflexivity|reflexivity|lia].
  - apply (proj1 (proj2 (lib {[ "artist" := "Moondog" ]}))). reflexivity.
  - apply (proj1 (proj2 (proj2 (lib {[ "time" := "3:20" ]}))) "3:20");
      reflexivity.
  - apply (proj1 (proj2 (proj2 (proj2 (lib {[ "time" := "-7" ]}))))
             "-7" (-7)%Z); [reflexivity|reflexivity|lia].
  - apply (proj2 (proj2 (proj2 (proj2 (lib {[ "time" := "125" ]}))))).
    reflexivity.
Defined.

End SongSpec.

(** * Properties of the width cap *)

Module StatusSpec.

Import Status.

Lemma substring_0_length (n : nat) :
  forall s, n <= String.length s -> String.length (substring 0 n s) = n.
Proof.
  induction n as [|n IH]; intros s Hn.
  - destruct s; reflexivity.
  - destruct s as [|c s]; simpl in *; [lia|]. rewrite IH by lia.
    reflexivity.
Qed.

(** A text within the width is left alone. *)
Lemma cap_width_short (max_width : Z) (text : string) :
  (Z.of_nat (String.length text) <= max_width)%Z ->
  cap_width max_width text = text.
Proof.
  intros H. unfold cap_width.
  assert (Hgt : (Z.of_nat (String.length text) >? max_width)%Z = false)
    by lia.
  rewrite Hgt. reflexivity.
Qed.

(** What is left of a text over the width: the characters before its last
    [max_width + 3], if any, and the three dots. *)
Lemma cap_width_length (max_width : Z) (text : string) :
  (0 <= max_width < Z.of_nat (String.length text))%Z ->
  Z.of_nat (String.length (cap_width max_width text))
  = (Z.max 0 (Z.of_nat (String.length text) - max_width - 3) + 3)%Z.
Proof.
  intros H. unfold cap_width, slice_to.
  assert (Hgt : (Z.of_nat (String.length text) >? max_width)%Z = true)
    by lia.
  assert (Hneg : (- max_width - 3 <? 0)%Z = true) by lia.
  rewrite Hgt, Hneg, TemplateFacts.append_length, substring_0_length by lia.
  simpl. lia.
Qed.

(** C6, where the code departs from it. With [max_width] at 10, a text of
    32 characters loses its last 13 characters and gains three dots: 22
    characters are displayed, more than the 10 the parameter is documented
    to allow. The slice [text[:-self.max_width - 3]] drops [max_width + 3]
    characters from the end instead of keeping [max_width - 3] from the
    start. *)
Theorem cap_width_exceeds :
  cap_width 10 "Artist Name - Song Title (Remix)" = "Artist Name - Song ..."
  /\ (Z.of_nat (String.length
                  (cap_width 10 "Artist Name - Song Title (Remix)")) > 10)%Z.
Proof. split; [reflexivity|vm_compute; reflexivity]. Qed.

End StatusSpec.

(** * The parser under a resolver that can raise *)

Module RaisingFacts.

Import Template TemplateFacts Song.

Section Resolver.

Variable value_getter : string -> result string.

Local Abbreviation returning := (Raising.returning value_getter).
Local Abbreviation first_raise := (Raising.first_raise value_getter).
Local Abbreviation run := (Template.run returning).

Lemma first_raise_app (l1 l2 : list string) :
  first_raise (l1 ++ l2)
  = match first_raise l1 with
    | Some e => Some e
    | None => first_raise l2
    end.
Proof.
  induction l1 as [|k l1 IH]; simpl; [reflexivity|].
  destruct (value_getter k); [exact IH|reflexivity].
Qed.

(** The keys a run adds to the log. *)
Lemma run_calls (instr : string) (ret : list string) (found : bool)
    (calls : list string) :
  exists more, Template.calls (run instr ret found calls) = (calls ++ more)%list.
Proof. destruct (run_sound returning instr ret found calls) as (_ & H & _).
       exact H. Qed.

Lemma more_split (calls x more m all : list string) :
  all = (calls ++ more)%list -> all = ((calls ++ x) ++ m)%list ->
  more = (x ++ m)%list.
Proof.
  intros H1 H2. rewrite H1, <- app_assoc in H2.
  apply app_inv_head in H2. exact H2.
Qed.

(** The loop under the raising resolver against the loop under the
    returning one: it raises the exception of the first key added to the
    log on which the resolver raises, and returns the same outcome when
    there is none. *)
Lemma scope_first_raise (fuel : nat) :
  forall instr ret found calls more,
    String.length instr < fuel ->
    Template.calls (run instr ret found calls) = (calls ++ more)%list ->
    Raising.scope value_getter fuel instr ret found calls
    = Some (match first_raise more with
            | Some e => Raise e
            | None => Return (run instr ret found calls)
            end).
Proof.
  induction fuel as [|fuel IH]; intros instr ret found calls more Hlen Hc;
    [lia|].
  destruct instr as [|char instr].
  { rewrite run_nil in Hc |- *. simpl in Hc.
    rewrite <- (app_nil_r calls) in Hc at 1. apply app_inv_head in Hc.
    subst more. reflexivity. }
  simpl in Hlen. cbn [Raising.scope].
  rewrite run_cons in Hc |- *.
  assert (Hcont : forall instr' ret' found',
             String.length instr' <= String.length instr ->
             Template.calls (run instr' ret' found' calls)
             = (calls ++ more)%list ->
             Raising.scope value_getter fuel instr' ret' found' calls
             = Some (match first_raise more with
                     | Some e => Raise e
                     | None => Return (run instr' ret' found' calls)
                     end))
    by (intros; apply IH; [lia|assumption]).
  pose proof (run_rest_le returning instr [] found calls) as Hrest.
  destruct (run_calls instr [] found calls) as [m1 Hm1].
  pose proof (IH instr [] found calls m1 ltac:(lia) Hm1) as Hsub.
  assert (Hgoes : forall ret' found',
             Template.calls
               (run (rest (run instr [] found calls)) ret' found'
                    (Template.calls (run instr [] found calls)))
             = (calls ++ more)%list ->
             exists m2,
               more = (m1 ++ m2)%list
               /\ Raising.scope value_getter fuel
                    (rest (run instr [] found calls)) ret' found'
                    (Template.calls (run instr [] found calls))
                  = Some (match first_raise m2 with
                          | Some e => Raise e
                          | None =>
                              Return
                                (run (rest (run instr [] found calls)) ret'
                                     found'
                                     (Template.calls
                                        (run instr [] found calls)))
                          end)).
  { intros ret' found' Hc'.
    destruct (run_calls (rest (run instr [] found calls)) ret' found'
                (Template.calls (run instr [] found calls))) as [m2 Hm2].
    exists m2. split; [|apply IH; [lia|exact Hm2]].
    apply (more_split calls m1 more m2 _ Hc').
    rewrite Hm2, Hm1. reflexivity. }
  assert (Hstops : Template.calls (run instr [] found calls)
                   = (calls ++ more)%list -> more = m1).
  { intros Hc'. rewrite Hm1 in Hc'. apply app_inv_head in Hc'.
    symmetry. exact Hc'. }
  destruct (Ascii.eqb char "%" || Ascii.eqb char "{").
  { pose proof (takewhile_ne_rest_le
                  (if Ascii.eqb char "%" then "%"%char else "}"%char) instr)
      as Htw.
    cbv zeta in Hc |- *.
    destruct (takewhile_ne _ instr) as [key instr']; simpl in Htw.
    assert (Hkey : forall ret' found',
               Template.calls (run instr' ret' found' (calls ++ [key]))
               = (calls ++ more)%list ->
               exists m, more = key :: m
                         /\ Template.calls
                              (run instr' ret' found' (calls ++ [key]))
                            = ((calls ++ [key]) ++ m)%list).
    { intros ret' found' Hc'.
      destruct (run_calls instr' ret' found' (calls ++ [key])) as [m Hm].
      exists m. split; [|exact Hm].
      exact (more_split _ _ _ _ _ Hc' Hm). }
    destruct (value_getter key) as [value|e] eqn:Hg.
    - assert (Hv : returning key = value)
        by (unfold Raising.returning; rewrite Hg; reflexivity).
      rewrite Hv in Hc |- *.
      destruct (truthy value); destruct (Hkey _ _ Hc) as (m & -> & Hm);
        cbn [Raising.first_raise]; rewrite Hg; apply IH; (lia || exact Hm).
    - assert (Hv : returning key = "")
        by (unfold Raising.returning; rewrite Hg; reflexivity).
      rewrite Hv in Hc. cbn [truthy] in Hc.
      destruct (Hkey _ _ Hc) as (m & -> & Hm).
      cbn [Raising.first_raise]. rewrite Hg. reflexivity. }
  destruct (Ascii.eqb char "#").
  { pose proof (next_rest_le instr "#") as Hn.
    destruct (next instr "#") as [c instr']; simpl in Hn.
    apply Hcont; assumption. }
  destruct (Ascii.eqb char "\").
  { pose proof (next_rest_le instr "\") as Hn.
    destruct (next instr "\") as [ln instr']; simpl in Hn.
    destruct (escape_char ln); apply Hcont; assumption. }
  destruct (Ascii.eqb char "[").
  { cbv zeta in Hc |- *. rewrite Hsub.
    destruct (Hgoes _ _ Hc) as (m2 & -> & Hgo). rewrite first_raise_app.
    destruct (first_raise m1); [reflexivity|exact Hgo]. }
  destruct (Ascii.eqb char "]").
  { assert (more = []) as ->.
    { destruct found; simpl in Hc; rewrite <- (app_nil_r calls) in Hc at 1;
        apply app_inv_head in Hc; congruence. }
    destruct found; reflexivity. }
  destruct (Ascii.eqb char "|").
  { cbv zeta in Hc |- *. rewrite Hsub. destruct found.
    - destruct (Hgoes _ _ Hc) as (m2 & -> & Hgo). rewrite first_raise_app.
      destruct (first_raise m1); [reflexivity|exact Hgo].
    - destruct (Template.found (run instr [] false calls)) eqn:Hf.
      + destruct (Hgoes _ _ Hc) as (m2 & -> & Hgo). rewrite first_raise_app.
        destruct (first_raise m1); [reflexivity|]. rewrite Hf. exact Hgo.
      + rewrite (Hstops Hc).
        destruct (first_raise m1); [reflexivity|]. rewrite Hf. reflexivity. }
  destruct (Ascii.eqb char "&").
  { cbv zeta in Hc |- *. rewrite Hsub.
    destruct (found && Template.found (run instr [] found calls)) eqn:Hf.
    - destruct (Hgoes _ _ Hc) as (m2 & -> & Hgo). rewrite first_raise_app.
      destruct (first_raise m1); [reflexivity|]. rewrite Hf. exact Hgo.
    - rewrite (Hstops Hc).
      destruct (first_raise m1); [reflexivity|]. rewrite Hf. reflexivity. }
  apply Hcont; [lia|exact Hc].
Qed.

End Resolver.

End RaisingFacts.

(** * More on what templates render to *)

Module TemplateMore.

Import Template TemplateFacts.

Lemma append_empty_l (s : string) : ("" ++ s)%string = s.
Proof. reflexivity. Qed.

(** Brings two texts built from joined lists and appended strings to the
    same shape. *)
Ltac same_text :=
  cbn [text found calls rest];
  repeat rewrite join_snoc;
  unfold join; cbn [fold_right List.app];
  repeat first [ rewrite append_empty_r | rewrite append_empty_l
               | rewrite append_assoc | rewrite append_cons ];
  try reflexivity.

(** [#] makes the loop copy the character after it, whatever it is, a
    marker, a bracket or an operator included, and the resolver is not
    called; a [#] that ends the template is copied itself. *)
Theorem hash_copies_next (value_getter : string -> string)
    (lit1 lit2 : string) (c : ascii) :
  literal lit1 = true -> literal lit2 = true ->
  render value_getter (lit1 ++ "#" ++ String c lit2)
  = (lit1 ++ String c lit2, true)
  /\ calls (parse_template value_getter (lit1 ++ "#" ++ String c lit2)
                           true []) = []
  /\ render value_getter (lit1 ++ "#") = (lit1 ++ "#", true).
Proof.
  intros H1 H2. unfold render, parse_template.
  change ("#" ++ String c lit2)%string with (String "#" (String c lit2)).
  rewrite !run_literal_prefix by exact H1.
  rewrite !run_cons. cbn.
  rewrite run_literal by exact H2. rewrite run_nil.
  repeat split; same_text.
Qed.

Lemma hash_copies_next_witness :
  render (fun _ => "") ("50" ++ "#" ++ String "%" " done")
  = ("50" ++ String "%" " done", true)
  /\ calls (parse_template (fun _ => "")
              ("50" ++ "#" ++ String "%" " done") true []) = []
  /\ render (fun _ => "") ("50" ++ "#") = ("50" ++ "#", true).
Proof. apply (hash_copies_next (fun _ => "")); reflexivity. Defined.

(** After a backslash, one of the letters [a b t n v f r] gives the
    control character it names (bell, backspace, tab, newline, vertical
    tab, form feed, carriage return) and any other character is copied,
    special or not; a backslash that ends the template is copied itself.
    The resolver is not called. *)
Theorem backslash_escapes (value_getter : string -> string)
    (lit1 lit2 : string) (c : ascii) :
  literal lit1 = true -> literal lit2 = true ->
  render value_getter (lit1 ++ "\" ++ String c lit2)
  = (lit1 ++ String (default c (escape_char c)) lit2, true)
  /\ calls (parse_template value_getter (lit1 ++ "\" ++ String c lit2)
                           true []) = []
  /\ render value_getter (lit1 ++ "\") = (lit1 ++ "\", true)
  /\ map escape_char ["a"; "b"; "t"; "n"; "v"; "f"; "r"]%char
     = map Some ["007"; "008"; "009"; "010"; "011"; "012"; "013"]%char
  /\ (escape_char c = None <->
      ~ In c ["a"; "b"; "t"; "n"; "v"; "f"; "r"]%char).
Proof.
  intros H1 H2. unfold render, parse_template.
  change ("\" ++ String c lit2)%string with (String "\" (String c lit2)).
  rewrite !run_literal_prefix by exact H1.
  rewrite !run_cons. cbn.
  split; [|split; [|split; [|split]]].
  - destruct (escape_char c); rewrite run_literal by exact H2; cbn;
      f_equal; same_text.
  - destruct (escape_char c); rewrite run_literal by exact H2; reflexivity.
  - rewrite run_nil. same_text.
  - reflexivity.
  - unfold escape_char. cbn [In].
    repeat match goal with
           | |- context [Ascii.eqb c ?x] =>
               destruct (Ascii.eqb_spec c x) as [->|?]
           end; split; intros H; try discriminate; try tauto;
      try (exfalso; apply H; tauto).
    intuition congruence.
Qed.

Lemma backslash_escapes_witness :
  render (fun _ => "") ("a" ++ "\" ++ String "n" "b")
  = ("a" ++ String "010" "b", true)
  /\ render (fun _ => "") ("a" ++ "\" ++ String "[" "b")
     = ("a" ++ String "[" "b", true).
Proof.
  split.
  - apply (backslash_escapes (fun _ => "") "a" "b" "n"); reflexivity.
  - apply (backslash_escapes (fun _ => "") "a" "b" "["); reflexivity.
Defined.

(** A []] met outside every group ends the rendering: the template
    renders as the copied characters before it, and nothing after it is
    rendered or looked up. *)
Theorem stray_close_ends (value_getter : string -> string)
    (lit after : string) :
  literal lit = true ->
  render value_getter (lit ++ "]" ++ after) = (lit, true)
  /\ calls (parse_template value_getter (lit ++ "]" ++ after) true []) = []
  /\ rest (parse_template value_getter (lit ++ "]" ++ after) true [])
     = after.
Proof.
  intros H. unfold render, parse_template.
  change ("]" ++ after)%string with (String "]" after).
  rewrite run_literal_prefix by exact H. rewrite run_cons. cbn.
  repeat split; same_text.
Qed.

Lemma stray_close_ends_witness :
  render (fun _ => "x") ("title" ++ "]" ++ " by %artist%") = ("title", true)
  /\ calls (parse_template (fun _ => "x")
              ("title" ++ "]" ++ " by %artist%") true []) = []
  /\ rest (parse_template (fun _ => "x")
             ("title" ++ "]" ++ " by %artist%") true [])
     = " by %artist%".
Proof. apply (stray_close_ends (fun _ => "x")). reflexivity. Defined.

(** A placeholder between copied characters, outside every group: the
    characters on both sides are rendered whether the key resolves or not,
    the value stands between them, the resolver is called once, on the
    key, and [found] tells whether the value was not empty. *)
Theorem placeholder_in_text (value_getter : string -> string)
    (char endchar : ascii) (lit1 key lit2 : string) :
  (char = "%"%char /\ endchar = "%"%char)
  \/ (char = "{"%char /\ endchar = "}"%char) ->
  literal lit1 = true -> literal lit2 = true ->
  occurs endchar key = false ->
  parse_template value_getter
    (lit1 ++ String char (key ++ String endchar lit2)) true []
  = Outcome (lit1 ++ value_getter key ++ lit2) (truthy (value_getter key))
            "" [key].
Proof.
  intros Hc H1 H2 Hk. unfold parse_template.
  rewrite run_literal_prefix by exact H1.
  rewrite (run_placeholder_closed value_getter char endchar key lit2
             _ _ _ Hc Hk).
  destruct (value_getter key) as [|c v]; cbn [truthy];
    rewrite run_literal by exact H2; f_equal; same_text.
Qed.

Lemma placeholder_in_text_witness :
  parse_template (fun k => if String.eqb k "title" then "Elf Dance" else "")
    ("Now: " ++ String "{" ("title" ++ String "}" " (live)")) true []
  = Outcome ("Now: " ++ "Elf Dance" ++ " (live)") true "" ["title"].
Proof.
  apply (placeholder_in_text
           (fun k => if String.eqb k "title" then "Elf Dance" else "")
           "{" "}" "Now: " "title" " (live)");
    [right; split; reflexivity|reflexivity..].
Defined.

(** A group holding one placeholder among copied characters: when the key
    resolves, the group gives its characters with the value in place and
    the scope around it becomes found; when it does not, the group gives
    nothing, its copied characters included, and the scope around it
    becomes not found. Either way the loop goes on after the []], with
    one more call in the log. *)
Theorem group_of_one_placeholder (value_getter : string -> string)
    (char endchar : ascii) (lit1 key lit2 after : string)
    (ret : list string) (found : bool) (calls : list string) :
  (char = "%"%char /\ endchar = "%"%char)
  \/ (char = "{"%char /\ endchar = "}"%char) ->
  literal lit1 = true -> literal lit2 = true ->
  occurs endchar key = false ->
  run value_getter
    ("[" ++ lit1 ++ String char (key ++ String endchar (lit2 ++ "]" ++ after)))
    ret found calls
  = if truthy (value_getter key)
    then run value_getter after
             (ret ++ [lit1 ++ value_getter key ++ lit2]) true (calls ++ [key])
    else run value_getter after ret false (calls ++ [key]).
Proof.
  intros Hc H1 H2 Hk.
  change ("[" ++ lit1 ++ String char
            (key ++ String endchar (lit2 ++ "]" ++ after)))%string
    with (String "["
            (lit1 ++ String char
               (key ++ String endchar (lit2 ++ String "]" after)))).
  rewrite run_cons. cbn.
  rewrite run_literal_prefix by exact H1.
  rewrite (run_placeholder_closed value_getter char endchar key _
             _ _ _ Hc Hk).
  destruct (truthy (value_getter key));
    rewrite run_literal_prefix by exact H2; rewrite run_cons; cbn.
  - apply run_join. rewrite !join_snoc. f_equal. same_text.
  - apply run_snoc_empty.
Qed.

Lemma group_of_one_placeholder_witness :
  run (fun k => if String.eqb k "artist" then "Moondog" else "")
    ("[" ++ "by " ++ String "%" ("artist" ++ String "%" ("!" ++ "]" ++ " end")))
    ["Bird "] false []
  = run (fun k => if String.eqb k "artist" then "Moondog" else "") " end"
      (["Bird "] ++ ["by " ++ "Moondog" ++ "!"]) true ([] ++ ["artist"]).
Proof.
  apply (group_of_one_placeholder
           (fun k => if String.eqb k "artist" then "Moondog" else "")
           "%" "%" "by " "artist" "!" " end" ["Bird "] false []);
    [left; split; reflexivity|reflexivity..].
Defined.

(** The fallback idiom of the module's documentation, [[%k1%|%k2%]]
    followed by copied characters: the text is the first of the two values
    that is not empty, then the characters after the group; when both are
    empty only those characters are rendered and [found] is false. Both
    keys are looked up in every case, in this order. *)
Theorem fallback_group (value_getter : string -> string)
    (k1 k2 lit : string) :
  occurs "%" k1 = false -> occurs "%" k2 = false -> literal lit = true ->
  parse_template value_getter
    ("[%" ++ k1 ++ "%|%" ++ k2 ++ "%]" ++ lit) true []
  = Outcome
      ((if truthy (value_getter k1) then value_getter k1
        else value_getter k2) ++ lit)
      (truthy (value_getter k1) || truthy (value_getter k2))
      "" [k1; k2].
Proof.
  intros H1 H2 Hl. unfold parse_template.
  change ("[%" ++ k1 ++ "%|%" ++ k2 ++ "%]" ++ lit)%string
    with (String "[" (String "%" (k1 ++ String "%"
            (String "|" (String "%" (k2 ++ String "%"
               (String "]" lit))))))).
  assert (Hpct : forall key after ret found calls,
             occurs "%" key = false ->
             run value_getter (String "%" (key ++ String "%" after))
                 ret found calls
             = if truthy (value_getter key)
               then run value_getter after (ret ++ [value_getter key]) true
                        (calls ++ [key])
               else run value_getter after ret false (calls ++ [key])).
  { intros. apply run_placeholder_closed with (endchar := "%"%char);
      [left; split; reflexivity|assumption]. }
  rewrite run_cons. cbn. rewrite (Hpct k1) by exact H1.
  destruct (value_getter k1) as [|c1 v1]; cbn [truthy];
    rewrite run_cons; cbn; rewrite (Hpct k2) by exact H2;
    destruct (value_getter k2) as [|c2 v2]; cbn [truthy];
    rewrite run_cons; cbn;
    repeat (rewrite (run_literal value_getter lit) by exact Hl; cbn);
    rewrite ?run_nil; f_equal; same_text.
Qed.

Lemma fallback_group_witness :
  parse_template (fun k => if String.eqb k "file" then "a.ogg" else "")
    ("[%" ++ "title" ++ "%|%" ++ "file" ++ "%]" ++ " >") true []
  = Outcome ("a.ogg" ++ " >") true "" ["title"; "file"].
Proof.
  apply (fallback_group
           (fun k => if String.eqb k "file" then "a.ogg" else "")
           "title" "file" " >"); reflexivity.
Defined.

(** Two resolvers that agree on the keys a run looks up give the same
    run. *)
Lemma run_local_bounded (vg1 vg2 : string -> string) (n : nat) :
  forall instr ret found calls more,
    String.length instr <= n ->
    Template.calls (run vg1 instr ret found calls) = (calls ++ more)%list ->
    (forall k, In k more -> vg1 k = vg2 k) ->
    run vg2 instr ret found calls = run vg1 instr ret found calls.
Proof.
  induction n as [|n IH]; intros instr ret found calls more Hlen Hc Hag.
  { destruct instr; [reflexivity|simpl in Hlen; lia]. }
  destruct instr as [|char instr]; [reflexivity|].
  simpl in Hlen. rewrite run_cons in Hc. rewrite !run_cons.
  assert (Hcont : forall instr' ret' found',
             String.length instr' <= String.length instr ->
             Template.calls (run vg1 instr' ret' found' calls)
             = (calls ++ more)%list ->
             run vg2 instr' ret' found' calls
             = run vg1 instr' ret' found' calls)
    by (intros; apply IH with more; [lia|assumption..]).
  pose proof (run_rest_le vg1 instr [] found calls) as Hrest.
  destruct (run_sound vg1 instr [] found calls) as (_ & [m1 Hm1] & _).
  assert (Hsub : (exists m2, more = (m1 ++ m2)%list) ->
                 run vg2 instr [] found calls = run vg1 instr [] found calls).
  { intros [m2 ->]. apply IH with m1; [lia|exact Hm1|].
    intros k Hk. apply Hag, in_or_app. left. exact Hk. }
  assert (Hgoes : forall ret' found',
             Template.calls
               (run vg1 (rest (run vg1 instr [] found calls)) ret' found'
                    (Template.calls (run vg1 instr [] found calls)))
             = (calls ++ more)%list ->
             (exists m2, more = (m1 ++ m2)%list)
             /\ run vg2 (rest (run vg1 instr [] found calls)) ret' found'
                    (Template.calls (run vg1 instr [] found calls))
                = run vg1 (rest (run vg1 instr [] found calls)) ret' found'
                      (Template.calls (run vg1 instr [] found calls))).
  { intros ret' found' Hc'.
    destruct (run_sound vg1 (rest (run vg1 instr [] found calls)) ret' found'
                (Template.calls (run vg1 instr [] found calls)))
      as (_ & [m2 Hm2] & _).
    assert (Hmore : more = (m1 ++ m2)%list).
    { apply (RaisingFacts.more_split calls m1 more m2 _ Hc').
      rewrite Hm2, Hm1. reflexivity. }
    split; [exists m2; exact Hmore|].
    apply IH with m2; [lia|exact Hm2|].
    intros k Hk. apply Hag. rewrite Hmore. apply in_or_app. right. exact Hk. }
  assert (Hstops : Template.calls (run vg1 instr [] found calls)
                   = (calls ++ more)%list ->
                   exists m2, more = (m1 ++ m2)%list).
  { intros Hc'. rewrite Hm1 in Hc'. apply app_inv_head in Hc'.
    exists []. rewrite app_nil_r. symmetry. exact Hc'. }
  destruct (Ascii.eqb char "%" || Ascii.eqb char "{").
  { pose proof (takewhile_ne_rest_le
                  (if Ascii.eqb char "%" then "%"%char else "}"%char) instr)
      as Htw.
    cbv zeta in Hc |- *.
    destruct (takewhile_ne _ instr) as [key instr']; simpl in Htw.
    assert (Hkey : forall ret' found',
               Template.calls (run vg1 instr' ret' found' (calls ++ [key]))
               = (calls ++ more)%list ->
               vg1 key = vg2 key
               /\ run vg2 instr' ret' found' (calls ++ [key])
                  = run vg1 instr' ret' found' (calls ++ [key])).
    { intros ret' found' Hc'.
      destruct (run_sound vg1 instr' ret' found' (calls ++ [key]))
        as (_ & [m Hm] & _).
      pose proof (RaisingFacts.more_split _ _ _ _ _ Hc' Hm) as Hmore.
      split; [apply Hag; rewrite Hmore; left; reflexivity|].
      apply IH with m; [lia|exact Hm|].
      intros k Hk. apply Hag. rewrite Hmore. right. exact Hk. }
    destruct (truthy (vg1 key)) eqn:Ht;
      destruct (Hkey _ _ Hc) as (Hv & Hgo); rewrite <- Hv, Ht; exact Hgo. }
  destruct (Ascii.eqb char "#").
  { pose proof (next_rest_le instr "#") as Hn.
    destruct (next instr "#") as [c instr']; simpl in Hn.
    apply Hcont; assumption. }
  destruct (Ascii.eqb char "\").
  { pose proof (next_rest_le instr "\") as Hn.
    destruct (next instr "\") as [ln instr']; simpl in Hn.
    destruct (escape_char ln); apply Hcont; assumption. }
  destruct (Ascii.eqb char "[").
  { cbv zeta in Hc |- *. destruct (Hgoes _ _ Hc) as (Hm & Hgo).
    rewrite (Hsub Hm). exact Hgo. }
  destruct (Ascii.eqb char "]"); [reflexivity|].
  destruct (Ascii.eqb char "|").
  { cbv zeta in Hc |- *. destruct found.
    - destruct (Hgoes _ _ Hc) as (Hm & Hgo). rewrite (Hsub Hm). exact Hgo.
    - destruct (Template.found (run vg1 instr [] false calls)) eqn:Hf.
      + destruct (Hgoes _ _ Hc) as (Hm & Hgo). rewrite (Hsub Hm), Hf.
        exact Hgo.
      + rewrite (Hsub (Hstops Hc)), Hf. reflexivity. }
  destruct (Ascii.eqb char "&").
  { cbv zeta in Hc |- *.
    destruct (found && Template.found (run vg1 instr [] found calls)) eqn:Hf.
    - destruct (Hgoes _ _ Hc) as (Hm & Hgo). rewrite (Hsub Hm), Hf.
      exact Hgo.
    - rewrite (Hsub (Hstops Hc)), Hf. reflexivity. }
  apply Hcont; [lia|exact Hc].
Qed.

(** A rendering depends on the resolver only through the keys it looks
    up: a second resolver that gives the same values for the keys in the
    call log of a rendering renders the template the same way, with the
    same log. *)
Theorem render_local (vg1 vg2 : string -> string) (template : string) :
  (forall k, In k (calls (parse_template vg1 template true [])) ->
             vg1 k = vg2 k) ->
  parse_template vg2 template true [] = parse_template vg1 template true []
  /\ render vg2 template = render vg1 template.
Proof.
  intros Hag.
  assert (H : parse_template vg2 template true []
              = parse_template vg1 template true []).
  { unfold parse_template.
    apply (run_local_bounded vg1 vg2 (String.length template) template []
             true [] (calls (run vg1 template [] true [])));
      [lia|reflexivity|exact Hag]. }
  split; [exact H|]. unfold render. rewrite H. reflexivity.
Qed.

Lemma render_local_witness :
  render (fun k => if String.eqb k "title" then "T" else "other")
         "[%title%] #%x"
  = render (fun k => if String.eqb k "title" then "T" else "") "[%title%] #%x".
Proof.
  apply (render_local (fun k => if String.eqb k "title" then "T" else "")
           (fun k => if String.eqb k "title" then "T" else "other")
           "[%title%] #%x").
  intros k [<-|[]]. reflexivity.
Defined.

End TemplateMore.

(** * The parser under a resolver that can raise: what it does *)

Module RaisingSpec.

Import Template TemplateFacts Song RaisingFacts.

(** [render_text] read off the call log of the returning run. *)
Lemma render_text_by_log (value_getter : string -> result string)
    (template : string) :
  Raising.render_text value_getter template
  = match Raising.first_raise value_getter
            (calls (parse_template (Raising.returning value_getter)
                                   template true []))
    with
    | Some e => Raise e
    | None =>
        Return (fst (render (Raising.returning value_getter) template))
    end.
Proof.
  unfold Raising.render_text, render, parse_template.
  rewrite (scope_first_raise value_getter _ template [] true []
             (calls (run (Raising.returning value_getter) template []
                         true [])))
    by (lia || reflexivity).
  destruct (Raising.first_raise _ _); reflexivity.
Qed.

(** Rendering under a resolver that can raise, against rendering under the
    same resolver with its exceptions replaced by empty values: the text
    is the same when the resolver returns on every key looked up, and
    otherwise the exception of the first key, in the order of the calls,
    on which it raises leaves [parse_template]. *)
Theorem render_text_first_raise (value_getter : string -> result string)
    (template : string) :
  Raising.render_text value_getter template
  = match Raising.first_raise value_getter
            (calls (parse_template (Raising.returning value_getter)
                                   template true []))
    with
    | Some e => Raise e
    | None =>
        Return (fst (render (Raising.returning value_getter) template))
    end.
Proof. apply render_text_by_log. Qed.

Lemma first_raise_none (value_getter : string -> result string)
    (keys : list string) :
  Raising.first_raise value_getter keys = None <->
  forall k, In k keys -> exists v, value_getter k = Return v.
Proof.
  induction keys as [|key keys IH]; simpl.
  - split; [intros _ k []|reflexivity].
  - destruct (value_getter key) as [v|e] eqn:Hg.
    + rewrite IH. split.
      * intros H k [<-|Hk]; [eexists; exact Hg|apply H; exact Hk].
      * intros H k Hk. apply H. right. exact Hk.
    + split; [discriminate|]. intros H.
      destruct (H key (or_introl eq_refl)) as [v Hv]. congruence.
Qed.

Lemma first_raise_some (value_getter : string -> result string)
    (keys : list string) (e : exn) :
  Raising.first_raise value_getter keys = Some e ->
  exists k, In k keys /\ value_getter k = Raise e.
Proof.
  induction keys as [|key keys IH]; simpl; [discriminate|].
  destruct (value_getter key) as [v|e'] eqn:Hg.
  - intros H. destruct (IH H) as (k & Hk & Hr). exists k. split;
      [right; exact Hk|exact Hr].
  - intros [= <-]. exists key. split; [left; reflexivity|exact Hg].
Qed.

(** [parse_template] raises nothing of its own: an exception that leaves
    it was raised by the resolver, on a key the template made it look
    up. *)
Theorem render_text_raises_only (value_getter : string -> result string)
    (template : string) (e : exn) :
  Raising.render_text value_getter template = Raise e ->
  exists k,
    In k (calls (parse_template (Raising.returning value_getter)
                                template true []))
    /\ value_getter k = Raise e.
Proof.
  rewrite render_text_by_log.
  destruct (Raising.first_raise _ _) as [e'|] eqn:Hf; [|discriminate].
  intros [= <-]. exact (first_raise_some _ _ _ Hf).
Qed.

Lemma render_text_raises_only_witness :
  exists k,
    In k (calls (parse_template
                   (Raising.returning
                      (fun k => if String.eqb k "mtime" then Raise KeyError
                                else Return "x"))
                   "%a% [%mtime%]" true []))
    /\ (fun k => if String.eqb k "mtime" then Raise KeyError
                 else Return "x") k = Raise KeyError.
Proof.
  apply (render_text_raises_only
           (fun k => if String.eqb k "mtime" then Raise KeyError
                     else Return "x") "%a% [%mtime%]" KeyError).
  reflexivity.
Defined.

(** A resolver that returns on every key the template makes it look up
    lets [parse_template] return, with the text the returning resolver
    gives. *)
Theorem render_text_returns (value_getter : string -> result string)
    (template : string) :
  (forall k,
      In k (calls (parse_template (Raising.returning value_getter)
                                  template true [])) ->
      exists v, value_getter k = Return v) ->
  Raising.render_text value_getter template
  = Return (fst (render (Raising.returning value_getter) template)).
Proof.
  intros H. rewrite render_text_by_log.
  apply first_raise_none in H. rewrite H. reflexivity.
Qed.

Lemma render_text_returns_witness :
  Raising.render_text
    (fun k => if String.eqb k "mtime" then Raise KeyError else Return "x")
    "[%title%] #%mtime"
  = Return (fst (render
                   (Raising.returning
                      (fun k => if String.eqb k "mtime" then Raise KeyError
                                else Return "x"))
                   "[%title%] #%mtime")).
Proof.
  apply (render_text_returns
           (fun k => if String.eqb k "mtime" then Raise KeyError
                     else Return "x") "[%title%] #%mtime").
  intros k [<-|[]]. eexists. reflexivity.
Defined.

End RaisingSpec.

(** * More on the song attributes *)

Module SongMore.

Import Song.

(** ** Printing a number and reading it back *)

Lemma digit_char (r : N) :
  (r < 10)%N ->
  is_digit (ascii_of_N (48 + r)) = true
  /\ digit_value (ascii_of_N (48 + r)) = Z.of_N r
  /\ is_space (ascii_of_N (48 + r)) = false.
Proof.
  intros Hr.
  assert (H : exists n, n < 10 /\ r = N.of_nat n)
    by (exists (N.to_nat r); lia).
  destruct H as (n & Hn & ->).
  do 10 (destruct n as [|n]; [repeat split; reflexivity|]). lia.
Qed.

Lemma digits_of_S (fuel : nat) (n : N) (acc : string) :
  digits_of (S fuel) n acc
  = if (n <? 10)%N then String (ascii_of_N (48 + n mod 10)) acc
    else digits_of fuel (n / 10) (String (ascii_of_N (48 + n mod 10)) acc).
Proof. reflexivity. Qed.

(** Reading the digits [digits_of] writes in front of [acc]. *)
Lemma int_digits_digits_of (fuel : nat) :
  forall n acc a b,
    (n < 10 ^ N.of_nat (S fuel))%N ->
    exists k,
      int_digits (digits_of (S fuel) n acc) a b
      = int_digits acc (a * 10 ^ k + Z.of_N n) true
      /\ (0 <= k)%Z.
Proof.
  induction fuel as [|fuel IH]; intros n acc a b Hn.
  - assert (Hlt : (n < 10)%N) by (simpl in Hn; lia).
    rewrite digits_of_S. rewrite (proj2 (N.ltb_lt n 10) Hlt).
    rewrite N.mod_small by exact Hlt.
    destruct (digit_char n Hlt) as (Hd & Hv & _).
    cbn [int_digits]. rewrite Hd, Hv. exists 1%Z. split; [|lia].
    f_equal. lia.
  - rewrite digits_of_S. destruct (n <? 10)%N eqn:Hlt.
    + apply N.ltb_lt in Hlt. rewrite N.mod_small by exact Hlt.
      destruct (digit_char n Hlt) as (Hd & Hv & _).
      cbn [int_digits]. rewrite Hd, Hv. exists 1%Z. split; [|lia].
      f_equal. lia.
    + apply N.ltb_ge in Hlt.
      assert (Hq : (n / 10 < 10 ^ N.of_nat (S fuel))%N).
      { apply N.Div0.div_lt_upper_bound.
        replace (10 * 10 ^ N.of_nat (S fuel))%N
          with (10 ^ N.of_nat (S (S fuel)))%N; [exact Hn|].
        rewrite (Nat2N.inj_succ (S fuel)), N.pow_succ_r'. reflexivity. }
      destruct (IH (n / 10)%N
                  (String (ascii_of_N (48 + n mod 10)) acc) a b Hq)
        as (k & Hk & Hk0).
      rewrite Hk.
      assert (Hr : (n mod 10 < 10)%N) by (apply N.mod_lt; lia).
      destruct (digit_char _ Hr) as (Hd & Hv & _).
      cbn [int_digits]. rewrite Hd, Hv. exists (k + 1)%Z. split; [|lia].
      f_equal. rewrite Z.pow_add_r by lia.
      pose proof (N.div_mod n 10 ltac:(lia)) as Hdm.
      assert (Hz : Z.of_N n = (10 * Z.of_N (n / 10) + Z.of_N (n mod 10))%Z)
        by lia.
      rewrite Hz. ring.
Qed.

Lemma digits_of_no_space (fuel : nat) :
  forall n acc,
    lstrip (digits_of (S fuel) n acc) = digits_of (S fuel) n acc
    /\ (rstrip acc = acc ->
        rstrip (digits_of (S fuel) n acc) = digits_of (S fuel) n acc)
    /\ exists c s, digits_of (S fuel) n acc = String c s
                   /\ is_digit c = true.
Proof.
  assert (Hcons : forall r acc,
             (r < 10)%N -> rstrip acc = acc ->
             rstrip (String (ascii_of_N (48 + r)) acc)
             = String (ascii_of_N (48 + r)) acc).
  { intros r acc Hr Hacc. cbn [rstrip]. rewrite Hacc.
    destruct acc; [|reflexivity].
    rewrite (proj2 (proj2 (digit_char r Hr))). reflexivity. }
  induction fuel as [|fuel IH]; intros n acc;
    assert (Hr : (n mod 10 < 10)%N) by (apply N.mod_lt; lia);
    destruct (digit_char _ Hr) as (Hd & _ & Hs).
  - rewrite digits_of_S. destruct (n <? 10)%N.
    + split; [cbn [lstrip]; rewrite Hs; reflexivity|].
      split; [intros Hacc; apply Hcons; assumption|].
      eexists _, _. split; [reflexivity|exact Hd].
    + split; [cbn [lstrip digits_of]; rewrite Hs; reflexivity|].
      split; [intros Hacc; apply Hcons; assumption|].
      eexists _, _. split; [reflexivity|exact Hd].
  - rewrite digits_of_S. destruct (n <? 10)%N.
    + split; [cbn [lstrip]; rewrite Hs; reflexivity|].
      split; [intros Hacc; apply Hcons; assumption|].
      eexists _, _. split; [reflexivity|exact Hd].
    + destruct (IH (n / 10)%N (String (ascii_of_N (48 + n mod 10)) acc))
        as (Hl & Hrs & Hc).
      split; [exact Hl|]. split; [|exact Hc].
      intros Hacc. apply Hrs, Hcons; assumption.
Qed.

Lemma digit_first (c : ascii) (s : string) :
  is_digit c = true ->
  match String c s with
  | String "+" d => int_digits d 0 false
  | String "-" d => option_map Z.opp (int_digits d 0 false)
  | d => int_digits d 0 false
  end = int_digits (String c s) 0 false.
Proof.
  intros H.
  destruct c as [b0 b1 b2 b3 b4 b5 b6 b7].
  destruct b0, b1, b2, b3, b4, b5, b6, b7; try reflexivity;
    vm_compute in H; discriminate.
Qed.

Lemma log2_digits (n : N) : (n < 10 ^ N.of_nat (S (N.to_nat (N.log2 n))))%N.
Proof.
  rewrite Nat2N.inj_succ, N2Nat.id.
  destruct (N.eq_dec n 0%N) as [->|Hn]; [reflexivity|].
  pose proof (N.log2_spec n ltac:(lia)) as [_ Hlt].
  eapply N.lt_le_trans; [exact Hlt|].
  apply N.pow_le_mono_l. lia.
Qed.

(** [int] reads back what ['{:d}'.format] prints. *)
Lemma py_int_format_d (z : Z) : py_int (format_d z) = Some z.
Proof.
  unfold format_d, py_int.
  set (n := Z.abs_N z). set (fuel := N.to_nat (N.log2 n)).
  destruct (digits_of_no_space fuel n "") as (Hl & Hr & c & s & Hcs & Hd).
  specialize (Hr eq_refl).
  destruct (int_digits_digits_of fuel n "" 0 false (log2_digits n))
    as (k & Hk & _).
  cbn [int_digits] in Hk.
  destruct (z <? 0)%Z eqn:Hz.
  - assert (Hstrip : rstrip (lstrip (String "-" (digits_of (S fuel) n "")))
                     = String "-" (digits_of (S fuel) n "")).
    { change (lstrip (String "-" (digits_of (S fuel) n "")))
        with (String "-" (digits_of (S fuel) n "")).
      cbn [rstrip]. rewrite Hr, Hcs. reflexivity. }
    rewrite Hstrip, Hk. cbn [option_map]. f_equal. subst n. lia.
  - rewrite Hl, Hr, Hcs, (digit_first c s Hd), <- Hcs, Hk. f_equal.
    subst n. lia.
Qed.

Lemma py_int_format_02d (s : Z) :
  (0 <= s < 60)%Z -> py_int (format_02d s) = Some s.
Proof.
  intros Hs.
  assert (Hn : exists n, n < 60 /\ s = Z.of_nat n)
    by (exists (Z.to_nat s); lia).
  destruct Hn as (n & Hn & ->). clear Hs.
  do 60 (destruct n as [|n]; [reflexivity|]). lia.
Qed.

Section Attr.

Variable datetime : Type.
Variable strptime : string -> option datetime.
Variable strftime_c : datetime -> string.
Variable strftime_x : datetime -> string.

Local Abbreviation song_attr :=
  (Song.song_attr datetime strptime strftime_c strftime_x).

(** For [position], a [pos] that [int] reads as a number is shown as that
    number plus one, in decimal, so that reading the text back gives the
    position counted from one; a missing [pos] and one that [int] rejects
    give the empty string. *)
Theorem song_attr_position (song : gmap string string) :
  (forall v p,
      song !! "pos" = Some v -> py_int v = Some p ->
      song_attr song "position" = Return (format_d (p + 1))
      /\ py_int (format_d (p + 1)) = Some (p + 1)%Z)
  /\ (song !! "pos" = None -> song_attr song "position" = Return "")
  /\ (forall v,
         song !! "pos" = Some v -> py_int v = None ->
         song_attr song "position" = Return "").
Proof.
  unfold Song.song_attr, getitem, int. cbn [String.eqb Ascii.eqb Bool.eqb].
  split; [|split].
  - intros v p Hv Hp. rewrite Hv. cbn [bind]. rewrite Hp.
    split; [reflexivity|apply py_int_format_d].
  - intros ->. reflexivity.
  - intros v Hv Hp. rewrite Hv. cbn [bind]. rewrite Hp. reflexivity.
Qed.

(** The text shown for [time] determines the duration: what stands before
    the colon reads back as the minutes, what stands after it as the
    seconds, below sixty, and together they give the number of seconds the
    song record holds. *)
Theorem song_attr_time_reads_back (song : gmap string string) (v : string)
    (d : Z) :
  song !! "time" = Some v -> py_int v = Some d -> (0 < d)%Z ->
  exists minutes seconds,
    song_attr song "time" = Return (minutes ++ ":" ++ seconds)
    /\ String.length seconds = 2
    /\ exists m s,
         py_int minutes = Some m /\ py_int seconds = Some s
         /\ (0 <= s < 60)%Z /\ (0 <= m)%Z /\ (60 * m + s = d)%Z.
Proof.
  intros Hv Hd Hpos.
  pose proof (Z.mod_pos_bound d 60 ltac:(lia)) as Hm.
  exists (format_d (d / 60)), (format_02d (d mod 60)).
  split.
  { unfold Song.song_attr, getitem, int.
    cbn [String.eqb Ascii.eqb Bool.eqb].
    rewrite Hv. cbn [bind]. rewrite Hd. cbn [bind].
    assert (Hgt : (d >? 0)%Z = true) by lia. rewrite Hgt. reflexivity. }
  split; [rewrite SongSpec.format_02d_seconds by exact Hm; reflexivity|].
  exists (d / 60)%Z, (d mod 60)%Z.
  split; [apply py_int_format_d|].
  split; [apply py_int_format_02d; exact Hm|].
  split; [exact Hm|]. split; [apply Z.div_pos; lia|].
  pose proof (Z.div_mod d 60 ltac:(lia)). lia.
Qed.

End Attr.

Lemma song_attr_position_witness :
  Song.song_attr unit (fun _ => None) (fun _ => "") (fun _ => "")
                 {[ "pos" := "41" ]} "position" = Return "42"
  /\ py_int "42" = Some 42%Z.
Proof.
  apply (proj1 (song_attr_position unit (fun _ => None) (fun _ => "")
                  (fun _ => "") {[ "pos" := "41" ]}) "41" 41%Z);
    reflexivity.
Defined.

Lemma song_attr_time_reads_back_witness :
  exists minutes seconds,
    Song.song_attr unit (fun _ => None) (fun _ => "") (fun _ => "")
                   {[ "time" := "3599" ]} "time"
    = Return (minutes ++ ":" ++ seconds)
    /\ String.length seconds = 2
    /\ exists m s,
         py_int minutes = Some m /\ py_int seconds = Some s
         /\ (0 <= s < 60)%Z /\ (0 <= m)%Z /\ (60 * m + s = 3599)%Z.
Proof.
  apply (song_attr_time_reads_back unit (fun _ => None) (fun _ => "")
           (fun _ => "") {[ "time" := "3599" ]} "3599" 3599%Z);
    [reflexivity|reflexivity|lia].
Defined.

(** Outside [mtime] and [mdate], [song_attr] answers every attribute of
    every song with a string. *)
Lemma song_attr_returns_witness :
  exists s,
    Song.song_attr unit (fun _ => None) (fun _ => "") (fun _ => "")
                   {[ "time" := "soon" ]} "time" = Return s.
Proof.
  apply (SongSpec.song_attr_returns unit (fun _ => None) (fun _ => "")
           (fun _ => "") {[ "time" := "soon" ]} "time"); discriminate.
Defined.

End SongMore.

(** * What [current_track] shows *)

Module TrackSpec.

Import Template TemplateFacts Song Track RaisingFacts.

(** Runs the loop on a template that is written out, splitting on whether
    a value is empty when the loop comes to test it. *)
Ltac run_cases :=
  repeat first
    [ rewrite run_nil; cbn
    | rewrite run_cons; cbn
    | match goal with
      | |- context [truthy (?vg ?k)] => destruct (vg k) eqn:?; cbn
      end ].

(** The default [format], [%state% [[[%artist%] - %title%]|[%file%]]],
    under a resolver that returns: all four keys are looked up, in the
    order of the template; with a title the text is the state, the artist,
    a dash and the title, the dash staying when there is no artist; without
    a title it is the state and the file; without both it is the state and
    a space, and [found] is false. *)
Lemma default_format_run (value_getter : string -> string) :
  parse_template value_getter (format defaults) true []
  = Outcome
      (if truthy (value_getter "title")
       then value_getter "state" ++ " " ++ value_getter "artist" ++ " - "
            ++ value_getter "title"
       else if truthy (value_getter "file")
            then value_getter "state" ++ " " ++ value_getter "file"
            else value_getter "state" ++ " ")
      (truthy (value_getter "title") || truthy (value_getter "file"))
      "" ["state"; "artist"; "title"; "file"].
Proof.
  cbn [format defaults]. unfold parse_template.
  remember (Outcome _ _ _ _) as shown eqn:Hshown.
  run_cases; subst shown;
    repeat match goal with H : value_getter _ = _ |- _ => rewrite H end;
    cbn [truthy orb]; f_equal; TemplateMore.same_text.
Qed.

(** [render_text] through the run under the returning resolver. *)
Lemma render_text_run (value_getter : string -> result string)
    (template : string) :
  Raising.render_text value_getter template
  = match Raising.first_raise value_getter
            (calls (parse_template (Raising.returning value_getter)
                                   template true []))
    with
    | Some e => Raise e
    | None =>
        Return (text (parse_template (Raising.returning value_getter)
                                     template true []))
    end.
Proof.
  unfold Raising.render_text, parse_template.
  rewrite (scope_first_raise value_getter _ template [] true []
             (calls (run (Raising.returning value_getter) template []
                         true [])))
    by (lia || reflexivity).
  destruct (Raising.first_raise _ _); reflexivity.
Qed.

Lemma getindex_nil {A : Type} (i : Z) : getindex (@nil A) i = None.
Proof.
  unfold getindex. destruct (0 <=? i)%Z eqn:H0; [apply lookup_nil|].
  change (Z.of_nat (List.length (@nil A)) + i)%Z with i.
  rewrite H0. reflexivity.
Qed.

Section Library.

Variable datetime : Type.
Variable strptime : string -> option datetime.
Variable strftime_c : datetime -> string.
Variable strftime_x : datetime -> string.

Local Abbreviation song_attr :=
  (Song.song_attr datetime strptime strftime_c strftime_x).
Local Abbreviation attr_getter :=
  (Track.attr_getter strptime strftime_c strftime_x).
Local Abbreviation track_text :=
  (Track.track_text strptime strftime_c strftime_x).

(** An attribute of a song that is neither computed nor a date and does
    not start with [next_]: the raw value, or the empty string. *)
Lemma attr_getter_plain (song next_song : gmap string string)
    (attr : string) :
  String.prefix "next_" attr = false ->
  String.eqb attr "time" = false -> String.eqb attr "position" = false ->
  String.eqb attr "mtime" = false -> String.eqb attr "mdate" = false ->
  attr_getter song next_song attr = Return (default "" (song !! attr)).
Proof.
  intros Hp Ht Hpos Hm Hd. unfold Track.attr_getter, Song.song_attr.
  rewrite Hp, Ht, Hpos, Hm, Hd. reflexivity.
Qed.

(** How [attr_getter] chooses the song. *)
Lemma attr_getter_dispatch (song next_song : gmap string string)
    (attr : string) :
  attr_getter song next_song ("next_" ++ attr) = song_attr next_song attr
  /\ (String.prefix "next_" attr = false ->
      attr_getter song next_song attr = song_attr song attr).
Proof.
  split.
  - unfold Track.attr_getter.
    change ("next_" ++ attr)%string
      with (String "n" (String "e" (String "x" (String "t"
              (String "_" attr))))).
    assert (Hp : String.prefix "next_"
                   (String "n" (String "e" (String "x" (String "t"
                      (String "_" attr))))) = true).
    { apply String.prefix_correct. cbn [String.length substring].
      destruct attr; reflexivity. }
    rewrite Hp. destruct attr; reflexivity.
  - intros Hp. unfold Track.attr_getter. rewrite Hp. reflexivity.
Qed.

(** A key that starts with [next_] is answered from the next song, under
    the name that follows the prefix, and every other key from the
    current song, under its own name; neither song is consulted for the
    other's keys. *)
Theorem attr_getter_next (song next_song : gmap string string)
    (attr : string) :
  attr_getter song next_song ("next_" ++ attr) = song_attr next_song attr
  /\ (String.prefix "next_" attr = false ->
      attr_getter song next_song attr = song_attr song attr).
Proof. apply attr_getter_dispatch. Qed.

(** The stored state label is what [state] resolves to. *)
Lemma attr_getter_state (song next_song : gmap string string)
    (label : string) :
  attr_getter (<[ "state" := label ]> song) (<[ "state" := label ]> next_song)
              "state" = Return label
  /\ attr_getter (<[ "state" := label ]> song)
                 (<[ "state" := label ]> next_song) "next_state"
     = Return label.
Proof.
  split.
  - rewrite attr_getter_plain by reflexivity.
    rewrite lookup_insert_eq. reflexivity.
  - rewrite (proj1 (attr_getter_dispatch _ _ "state")).
    unfold Song.song_attr. cbn [String.eqb Ascii.eqb Bool.eqb].
    rewrite lookup_insert_eq. reflexivity.
Qed.

(** Once [current_track] has stored the state label in both songs, the
    placeholders [state] and [next_state] resolve to that label, whatever
    the songs held under [state] before. *)
Theorem state_placeholder (song next_song : gmap string string)
    (label : string) :
  attr_getter (<[ "state" := label ]> song) (<[ "state" := label ]> next_song)
              "state" = Return label
  /\ attr_getter (<[ "state" := label ]> song)
                 (<[ "state" := label ]> next_song) "next_state"
     = Return label.
Proof. apply attr_getter_state. Qed.

(** The text under the class defaults, for a state that is not hidden. *)
Lemma track_text_shown (status : gmap string string)
    (playlist_info : list (gmap string string)) (i j : Z) (st : string) :
  status_int status "song" = Return i ->
  status_int status "nextsong" = Return j ->
  status !! "state" = Some st -> st <> "stop" ->
  let song := default ∅ (getindex playlist_info i) in
  let label := state_character defaults (Some st) in
  let field := fun k => default "" (song !! k) in
  track_text defaults status playlist_info
  = Return (if truthy (field "title")
            then label ++ " " ++ field "artist" ++ " - " ++ field "title"
            else if truthy (field "file")
                 then label ++ " " ++ field "file"
                 else label ++ " ").
Proof.
  intros Hi Hj Hst Hstop song label field.
  unfold Track.track_text. rewrite Hi, Hj, Hst. cbn [bind].
  apply String.eqb_neq in Hstop. rewrite Hstop.
  cbn [hide_when_paused hide_when_stopped defaults andb orb].
  rewrite andb_false_r. cbn [orb].
  fold song. change (state_character defaults (Some st)) with label.
  set (next_song := default ∅ (getindex playlist_info j)).
  rewrite render_text_run, default_format_run.
  cbn [calls text Raising.first_raise].
  assert (Hplain : forall k,
             String.prefix "next_" k = false ->
             String.eqb k "time" = false -> String.eqb k "position" = false ->
             String.eqb k "mtime" = false -> String.eqb k "mdate" = false ->
             String.eqb k "state" = false ->
             attr_getter (<[ "state" := label ]> song)
                         (<[ "state" := label ]> next_song) k
             = Return (field k)).
  { intros k Hp Ht Hpos Hm Hd Hs.
    rewrite attr_getter_plain by assumption.
    apply String.eqb_neq in Hs.
    rewrite lookup_insert_ne by congruence. reflexivity. }
  destruct (attr_getter_state song next_song label) as (Hstate & _).
  unfold Raising.returning.
  rewrite Hstate, !Hplain by reflexivity. reflexivity.
Qed.

(** With the class defaults and a state that is not hidden, the text is
    the state label, a space, then the artist, a dash and the title of the
    current song when it has a title (the dash staying without an artist),
    its file when it has none, and nothing more when it has neither; no
    exception is raised. *)
Theorem track_text_default (status : gmap string string)
    (playlist_info : list (gmap string string)) (i j : Z) (st : string) :
  status_int status "song" = Return i ->
  status_int status "nextsong" = Return j ->
  status !! "state" = Some st -> st <> "stop" ->
  let song := default ∅ (getindex playlist_info i) in
  let label := state_character defaults (Some st) in
  let field := fun k => default "" (song !! k) in
  track_text defaults status playlist_info
  = Return (if truthy (field "title")
            then label ++ " " ++ field "artist" ++ " - " ++ field "title"
            else if truthy (field "file")
                 then label ++ " " ++ field "file"
                 else label ++ " ").
Proof. apply track_text_shown. Qed.

(** With the class defaults, a state that is not hidden and a playlist
    without the current position (the [IndexError] branch), the text is
    the state label followed by one space. *)
Theorem track_text_no_song (status : gmap string string)
    (playlist_info : list (gmap string string)) (i j : Z) (st : string) :
  status_int status "song" = Return i ->
  status_int status "nextsong" = Return j ->
  status !! "state" = Some st -> st <> "stop" ->
  getindex playlist_info i = None ->
  track_text defaults status playlist_info
  = Return (state_character defaults (Some st) ++ " ").
Proof.
  intros Hi Hj Hst Hstop Hnone.
  rewrite (track_text_shown status playlist_info i j st Hi Hj Hst Hstop).
  rewrite Hnone. reflexivity.
Qed.

(** A [format] that reaches [%mtime%] after copied characters, while
    playing a song without [last-modified] (the song of an empty playlist
    for one): the [KeyError] of [song_attr] goes through [attr_getter] and
    [parse_template] and leaves the [try] block, which catches neither it
    nor [ValueError]. *)
Theorem track_text_date_raises (self : config)
    (status : gmap string string)
    (playlist_info : list (gmap string string)) (i j : Z)
    (lit after : string) :
  status_int status "song" = Return i ->
  status_int status "nextsong" = Return j ->
  status !! "state" = Some "play" ->
  literal lit = true ->
  format self = lit ++ "%mtime%" ++ after ->
  default ∅ (getindex playlist_info i) !! "last-modified" = None ->
  track_text self status playlist_info = Raise KeyError.
Proof.
  intros Hi Hj Hst Hlit Hfmt Hnone.
  unfold Track.track_text. rewrite Hi, Hj, Hst. cbn [bind].
  cbn [String.eqb Ascii.eqb Bool.eqb andb orb].
  rewrite render_text_run, Hfmt.
  set (song := <[ "state" := state_character self (Some "play") ]>
                 (default ∅ (getindex playlist_info i))).
  set (next_song := <[ "state" := state_character self (Some "play") ]>
                      (default ∅ (getindex playlist_info j))).
  set (vg := Raising.returning (attr_getter song next_song)).
  assert (Hraise : attr_getter song next_song "mtime" = Raise KeyError).
  { rewrite (proj2 (attr_getter_dispatch song next_song "mtime"))
      by reflexivity.
    unfold Song.song_attr, getitem. cbn [String.eqb Ascii.eqb Bool.eqb].
    subst song. rewrite lookup_insert_ne by discriminate.
    rewrite Hnone. reflexivity. }
  assert (Hcalls : exists more,
             calls (parse_template vg (lit ++ "%mtime%" ++ after) true [])
             = "mtime" :: more).
  { unfold parse_template.
    change ("%mtime%" ++ after)%string
      with (String "%" ("mtime" ++ String "%" after)).
    rewrite run_literal_prefix by exact Hlit.
    rewrite (run_placeholder_closed vg "%" "%" "mtime" after)
      by (reflexivity || (left; split; reflexivity)).
    destruct (truthy (vg "mtime"));
      match goal with
      | |- context [run vg after ?r ?f ?c] =>
          destruct (run_sound vg after r f c) as (_ & [more Hmore] & _);
          exists more; exact Hmore
      end. }
  destruct Hcalls as [more ->]. cbn [Raising.first_raise].
  rewrite Hraise. reflexivity.
Qed.

End Library.

Lemma attr_getter_next_witness :
  Track.attr_getter (fun _ => @None unit) (fun _ => "") (fun _ => "")
    {[ "title" := "Now" ]} {[ "title" := "Then" ]} "title"
  = Song.song_attr unit (fun _ => None) (fun _ => "") (fun _ => "")
      {[ "title" := "Now" ]} "title".
Proof.
  apply (proj2 (attr_getter_next unit (fun _ => None) (fun _ => "")
                  (fun _ => "") {[ "title" := "Now" ]}
                  {[ "title" := "Then" ]} "title")).
  reflexivity.
Defined.

Lemma track_text_default_witness :
  Track.track_text (fun _ => @None unit) (fun _ => "") (fun _ => "")
    defaults {[ "state" := "pause"; "song" := "1" ]}
    [ {[ "file" := "a.ogg" ]};
      {[ "title" := "Bird's Lament"; "file" := "b.ogg" ]} ]
  = Return "[pause]  - Bird's Lament".
Proof.
  etransitivity;
    [apply (track_text_default unit (fun _ => None) (fun _ => "")
              (fun _ => "")
              {[ "state" := "pause"; "song" := "1" ]}
              [ {[ "file" := "a.ogg" ]};
                {[ "title" := "Bird's Lament"; "file" := "b.ogg" ]} ]
              1%Z 0%Z "pause"); [reflexivity..|discriminate]
    |vm_compute; reflexivity].
Defined.

Lemma track_text_no_song_witness :
  Track.track_text (fun _ => @None unit) (fun _ => "") (fun _ => "")
    defaults {[ "state" := "play"; "song" := "3" ]} [ {[ "file" := "a.ogg" ]} ]
  = Return "[play] ".
Proof.
  etransitivity;
    [apply (track_text_no_song unit (fun _ => None) (fun _ => "")
              (fun _ => "")
              {[ "state" := "play"; "song" := "3" ]}
              [ {[ "file" := "a.ogg" ]} ] 3%Z 0%Z "play");
       [reflexivity|reflexivity|reflexivity|discriminate|reflexivity]
    |vm_compute; reflexivity].
Defined.

Lemma track_text_date_raises_witness :
  Track.track_text (fun _ => @None unit) (fun _ => "") (fun _ => "")
    (Config "Changed: %mtime% [%title%]" false true 120 "[pause]" "[play]"
            "[stop]")
    {[ "state" := "play" ]} []
  = Raise KeyError.
Proof.
  apply (track_text_date_raises unit (fun _ => None) (fun _ => "")
           (fun _ => "")
           (Config "Changed: %mtime% [%title%]" false true 120 "[pause]"
                   "[play]" "[stop]")
           {[ "state" := "play" ]} [] 0%Z 0%Z "Changed: " " [%title%]");
    reflexivity.
Defined.

End TrackSpec.

(** * More on the width cap *)

Module StatusMore.

Import Status StatusSpec.

(** A text over the width keeps the characters before its last
    [max_width + 3], if it has that many, and gains three dots: it comes
    out [max 0 (len - max_width - 3) + 3] characters long. *)
Theorem cap_width_cut_length (max_width : Z) (text : string) :
  (0 <= max_width < Z.of_nat (String.length text))%Z ->
  cap_width max_width text
  = substring 0 (Z.to_nat (Z.of_nat (String.length text) - max_width - 3))
              text ++ "..."
  /\ Z.of_nat (String.length (cap_width max_width text))
     = (Z.max 0 (Z.of_nat (String.length text) - max_width - 3) + 3)%Z.
Proof.
  intros H. split; [|apply cap_width_length; exact H].
  unfold cap_width, slice_to.
  assert (Hgt : (Z.of_nat (String.length text) >? max_width)%Z = true)
    by lia.
  assert (Hneg : (- max_width - 3 <? 0)%Z = true) by lia.
  rewrite Hgt, Hneg. do 2 f_equal. lia.
Qed.

Lemma cap_width_cut_length_witness :
  cap_width 4 "abcdefghijkl" = "abcde..."
  /\ Z.of_nat (String.length (cap_width 4 "abcdefghijkl")) = 8%Z.
Proof. apply (cap_width_cut_length 4 "abcdefghijkl"). simpl. lia. Defined.

(** A text over the width comes out within it exactly when the width is
    at least three and the text at most twice the width: shorter widths
    cannot hold the dots, and of a longer text more than [max_width]
    characters are kept. *)
Theorem cap_width_within (max_width : Z) (text : string) :
  (0 <= max_width < Z.of_nat (String.length text))%Z ->
  (Z.of_nat (String.length (cap_width max_width text)) <= max_width)%Z
  <-> (3 <= max_width)%Z
      /\ (Z.of_nat (String.length text) <= 2 * max_width)%Z.
Proof.
  intros H. rewrite (cap_width_length max_width text H). lia.
Qed.

Lemma cap_width_within_witness :
  (Z.of_nat (String.length (cap_width 6 "abcdefghijkl")) <= 6)%Z
  <-> (3 <= 6)%Z /\ (Z.of_nat (String.length "abcdefghijkl") <= 2 * 6)%Z.
Proof. apply (cap_width_within 6 "abcdefghijkl"). simpl. lia. Defined.

(** A text one to three characters over the width is replaced by the three
    dots alone: none of its characters is left. *)
Theorem cap_width_dots (max_width : Z) (text : string) :
  (0 <= max_width < Z.of_nat (String.length text))%Z ->
  (Z.of_nat (String.length text) <= max_width + 3)%Z ->
  cap_width max_width text = "...".
Proof.
  intros H Hle. unfold cap_width, slice_to.
  assert (Hgt : (Z.of_nat (String.length text) >? max_width)%Z = true)
    by lia.
  assert (Hneg : (- max_width - 3 <? 0)%Z = true) by lia.
  rewrite Hgt, Hneg.
  replace (Z.to_nat
             (Z.max 0 (Z.of_nat (String.length text) + (- max_width - 3))))
    with 0 by lia.
  destruct text; reflexivity.
Qed.

Lemma cap_width_dots_witness : cap_width 10 "Hello world!" = "...".
Proof. apply (cap_width_dots 10 "Hello world!"); simpl; lia. Defined.

End StatusMore.
